(** * cache.py: an HTTP response cache on top of sqlite3

    A shallow embedding of [src/cache.py].  The Python functions are
    translated one by one; the pieces of the Python runtime and of
    SQLite that the module calls ([str.split], [str.strip], [int],
    [datetime.strptime], [strftime], the SQL expressions of the three
    statements) are modelled next to them, each with a note saying
    which documented behaviour it follows. *)

From Stdlib Require Import ZArith Lia Ascii String List DecimalString.
From Stdlib Require DecimalPos.
From stdpp Require Import gmap strings list fin_maps sorting.

Local Open Scope string_scope.
Local Open Scope Z_scope.

(** ** Exceptions

    Python exceptions are made explicit: a computation returns [Ok] or
    raises.  Only the exception classes that the module can meet are
    listed. *)

Inductive exn : Type :=
  | ValueError
  | TypeError
  | IndexError
  | AttributeError
  | OverflowError
  | UnpicklingError
  | PicklingError
  | IntegrityError        (* sqlite3.IntegrityError *)
  | OperationalError      (* sqlite3.OperationalError *)
  | ProgrammingError.     (* sqlite3.ProgrammingError *)

Inductive result (A : Type) : Type :=
  | Ok (a : A)
  | Raise (e : exn).
Arguments Ok {A} a.
Arguments Raise {A} e.

#[global] Instance result_ret : MRet result := fun A a => Ok a.
#[global] Instance result_bind : MBind result := fun A B f m =>
  match m with
  | Ok a => f a
  | Raise e => Raise e
  end.

#[global] Instance result_fmap : FMap result := fun A B f m =>
  match m with
  | Ok a => Ok (f a)
  | Raise e => Raise e
  end.

Definition returns {A} (m : result A) : Prop := exists a, m = Ok a.

(** ** Python strings

    A [str] is a [string]; a character is a code point below 256. *)

Module Str.

(** [str.isspace] on one character, for the code points below 256. *)
Definition isspace (c : ascii) : bool :=
  let n := nat_of_ascii c in
  ((9 <=? n) && (n <=? 13))%nat || ((28 <=? n) && (n <=? 32))%nat
  || (n =? 133)%nat || (n =? 160)%nat.

Definition isdigit (c : ascii) : bool :=
  let n := nat_of_ascii c in ((48 <=? n) && (n <=? 57))%nat.

Definition digit_value (c : ascii) : Z := Z.of_nat (nat_of_ascii c) - 48.

(** [s.split(sep)] for a one-character separator: never the empty list. *)
Fixpoint split (sep : ascii) (s : string) : list string :=
  match s with
  | EmptyString => [EmptyString]
  | String c s' =>
      if Ascii.eqb c sep then EmptyString :: split sep s'
      else match split sep s' with
           | p :: ps => String c p :: ps
           | [] => [String c EmptyString]
           end
  end.

Fixpoint lstrip (s : string) : string :=
  match s with
  | String c s' => if isspace c then lstrip s' else s
  | EmptyString => EmptyString
  end.

Fixpoint rstrip (s : string) : string :=
  match s with
  | EmptyString => EmptyString
  | String c s' =>
      match rstrip s' with
      | EmptyString => if isspace c then EmptyString else String c EmptyString
      | r => String c r
      end
  end.

(** [s.strip()] *)
Definition strip (s : string) : string := rstrip (lstrip s).

(** The blanks that [int] accepts around the number: the ASCII blanks,
    and the two other blanks below 256, which [int] reads as a space.
    The separators U+001C to U+001F, blanks for [str.isspace], are not
    among them. *)
Definition int_isspace (c : ascii) : bool :=
  let n := nat_of_ascii c in
  ((9 <=? n) && (n <=? 13))%nat || (n =? 32)%nat || (n =? 133)%nat || (n =? 160)%nat.

Fixpoint int_skip (s : string) : string :=
  match s with
  | String c s' => if int_isspace c then int_skip s' else s
  | EmptyString => EmptyString
  end.

Fixpoint int_blank (s : string) : bool :=
  match s with
  | String c s' => int_isspace c && int_blank s'
  | EmptyString => true
  end.

(** The digits of an integer literal, after the sign: decimal digits
    with single underscores between them, then blanks only.  [acc] is
    the value read so far, [count] the number of digits read, [prev]
    tells whether the previous character was a digit. *)
Fixpoint digits (s : string) (acc count : Z) (prev : bool) : option (Z * Z) :=
  match s with
  | EmptyString => if prev then Some (acc, count) else None
  | String c s' =>
      if isdigit c then digits s' (10 * acc + digit_value c) (count + 1) true
      else if Ascii.eqb c "_" then (if prev then digits s' acc count false else None)
      else if prev && int_blank s then Some (acc, count) else None
  end.

(** [sys.int_max_str_digits], as the interpreter sets it: a literal of
    more digits is refused. *)
Definition int_max_str_digits : Z := 4300.

Definition int_unsigned (d : string) : result Z :=
  match digits d 0 0 false with
  | Some (n, count) => if count <=? int_max_str_digits then Ok n else Raise ValueError
  | None => Raise ValueError
  end.

(** [int(s)] in base ten: blanks around the number are skipped, one sign
    is accepted, anything else raises [ValueError]. *)
Definition int (s : string) : result Z :=
  match int_skip s with
  | String "-" d => Z.opp <$> int_unsigned d
  | String "+" d => int_unsigned d
  | d => int_unsigned d
  end.

End Str.

(** ** Cache-Control directives *)

(** The value of a directive in the parsed dict: an [int] or [True]. *)
Inductive dval : Type :=
  | DInt (n : Z)
  | DTrue.

(** One pass of the comprehension's body: [parts = directive.split("=")],
    key [parts[0].strip()], value [int(parts[1])] when there is a second
    part and [True] otherwise. *)
Definition directive_item (directive : string) : result (string * dval) :=
  let parts := Str.split "=" directive in
  let key := Str.strip (hd EmptyString parts) in
  match parts with
  | _ :: v :: _ => n ← Str.int v; Ok (key, DInt n)
  | _ => Ok (key, DTrue)
  end.

(** The dict comprehension: items are inserted from left to right, a
    later item replaces an earlier one with the same key, and the first
    failing [int] aborts the whole comprehension. *)
Fixpoint comprehension (tokens : list string) (acc : gmap string dval)
  : result (gmap string dval) :=
  match tokens with
  | [] => Ok acc
  | t :: ts => kv ← directive_item t; comprehension ts (<[kv.1 := kv.2]> acc)
  end.

Definition _parse_cache_control (header : option string) : result (gmap string dval) :=
  match header with
  | None => Ok ∅
  | Some h => comprehension (Str.split "," h) ∅
  end.

(** ** Dates and times

    [datetime] objects at the resolution of one second: the only
    datetimes of the module come from [strptime] with a format without
    a fraction, or are printed with such a format.  [dt_tzinfo] is
    [None] for a naive datetime. *)

(** [class GMT(tzinfo)]: offset zero, name "GMT". *)
Inductive tzinfo : Type := GMT.

Definition tzname (tz : tzinfo) : string := match tz with GMT => "GMT" end.
Definition utcoffset (tz : tzinfo) : Z := match tz with GMT => 0 end.

Record datetime : Type := mk_datetime {
  year : Z; month : Z; day : Z;
  hour : Z; minute : Z; second : Z;
  dt_tzinfo : option tzinfo
}.

#[global] Instance tzinfo_eq_dec : EqDecision tzinfo.
Proof. solve_decision. Defined.
#[global] Instance datetime_eq_dec : EqDecision datetime.
Proof. solve_decision. Defined.

Module Calendar.

Definition is_leap (y : Z) : bool :=
  (y mod 4 =? 0) && (negb (y mod 100 =? 0) || (y mod 400 =? 0)).

Definition days_in_month (y m : Z) : Z :=
  if m =? 2 then (if is_leap y then 29 else 28)
  else if (m =? 4) || (m =? 6) || (m =? 9) || (m =? 11) then 30
  else 31.

(** The dates that [datetime.date] accepts. *)
Definition valid_date (y m d : Z) : bool :=
  (1 <=? y) && (y <=? 9999) && (1 <=? m) && (m <=? 12)
  && (1 <=? d) && (d <=? days_in_month y m).

Definition valid_time (h mi s : Z) : bool :=
  (0 <=? h) && (h <=? 23) && (0 <=? mi) && (mi <=? 59) && (0 <=? s) && (s <=? 59).

Definition days_before_year (y : Z) : Z :=
  let p := y - 1 in p * 365 + p / 4 - p / 100 + p / 400.

Fixpoint days_before_month_from (y : Z) (m : nat) : Z :=
  match m with
  | O => 0
  | S m' => days_before_month_from y m' + days_in_month y (Z.of_nat m')
  end.

Definition days_before_month (y m : Z) : Z :=
  days_before_month_from y (Z.to_nat m) - days_in_month y 0.

(** [date.toordinal()]: 1 January of year 1 is day 1. *)
Definition toordinal (y m d : Z) : Z :=
  days_before_year y + days_before_month y m + d.

(** [date.weekday()]: Monday is 0. *)
Definition weekday (y m d : Z) : Z := (toordinal y m d + 6) mod 7.

Definition day_abbr : list string := ["Mon"; "Tue"; "Wed"; "Thu"; "Fri"; "Sat"; "Sun"].
Definition month_abbr : list string :=
  ["Jan"; "Feb"; "Mar"; "Apr"; "May"; "Jun"; "Jul"; "Aug"; "Sep"; "Oct"; "Nov"; "Dec"].

End Calendar.

Definition valid_datetime (d : datetime) : bool :=
  Calendar.valid_date (year d) (month d) (day d)
  && Calendar.valid_time (hour d) (minute d) (second d).

Definition digit_char (k : Z) : ascii := ascii_of_nat (48 + Z.to_nat k).

Definition pad2 (n : Z) : string :=
  String (digit_char (n / 10 mod 10)) (String (digit_char (n mod 10)) EmptyString).

Definition pad4 (n : Z) : string :=
  String (digit_char (n / 1000 mod 10)) (String (digit_char (n / 100 mod 10)) (pad2 n)).

(** ** [strptime] and [strftime]

    [datetime.strptime] turns the format into a regular expression,
    matches it against the start of the text without regard to letter
    case, refuses text that the match does not exhaust, and builds the
    date from the named groups.  The model follows that route for the
    directives of [HTTPDATE_FORMAT] in the C locale with the process
    time zone set to UTC, where [%Z] accepts the names GMT and UTC. *)

Module Re.

Inductive re : Type :=
  | Eps
  | Lit (c : ascii)                 (* one character, case ignored *)
  | Cls (f : ascii -> bool)         (* one character of a class *)
  | Spaces                          (* \s+ *)
  | Cat (r1 r2 : re)
  | Or (r1 r2 : re)                 (* r1|r2, r1 tried first *)
  | Group (name : ascii) (r : re).  (* (?P<name>r) *)

Definition lower (c : ascii) : ascii :=
  let n := nat_of_ascii c in
  if ((65 <=? n) && (n <=? 90))%nat then ascii_of_nat (n + 32) else c.

Definition ci_eqb (a b : ascii) : bool := Ascii.eqb (lower a) (lower b).

Fixpoint lower_str (s : string) : string :=
  match s with
  | EmptyString => EmptyString
  | String c s' => String (lower c) (lower_str s')
  end.

Definition captures : Type := list (ascii * string).

(** The text consumed between [s] and its suffix [rest]. *)
Definition consumed (s rest : string) : string :=
  substring 0 (String.length s - String.length rest) s.

(** [\s+], greedy: the longest run first, then shorter ones. *)
Fixpoint spaces {A} (s : string) (k : string -> option A) : option A :=
  match s with
  | String c s' =>
      if Str.isspace c then
        match spaces s' k with
        | Some a => Some a
        | None => k s'
        end
      else None
  | EmptyString => None
  end.

(** Backtracking match of [r] at the start of [s]; [k] receives the
    rest of the text and the groups closed so far. *)
Fixpoint run {A} (r : re) (s : string) (caps : captures)
    (k : string -> captures -> option A) : option A :=
  match r with
  | Eps => k s caps
  | Lit c =>
      match s with
      | String c' s' => if ci_eqb c c' then k s' caps else None
      | EmptyString => None
      end
  | Cls f =>
      match s with
      | String c' s' => if f c' then k s' caps else None
      | EmptyString => None
      end
  | Spaces => spaces s (fun s' => k s' caps)
  | Cat r1 r2 => run r1 s caps (fun s' caps' => run r2 s' caps' k)
  | Or r1 r2 =>
      match run r1 s caps k with
      | Some a => Some a
      | None => run r2 s caps k
      end
  | Group name r0 =>
      run r0 s caps (fun s' caps' => k s' ((name, consumed s s') :: caps'))
  end.

(** [regex.match(text)]: the first match in backtracking order, with
    the unmatched rest. *)
Definition matches (r : re) (s : string) : option (string * captures) :=
  run r s [] (fun rest caps => Some (rest, caps)).

Fixpoint word (w : string) : re :=
  match w with
  | EmptyString => Eps
  | String c w' => Cat (Lit c) (word w')
  end.

Fixpoint any_of (ws : list string) : re :=
  match ws with
  | [] => Cls (fun _ => false)
  | [w] => word w
  | w :: ws' => Or (word w) (any_of ws')
  end.

Definition range (lo hi : ascii) : re :=
  Cls (fun c => (nat_of_ascii lo <=? nat_of_ascii c)%nat && (nat_of_ascii c <=? nat_of_ascii hi)%nat).

Definition digit : re := Cls Str.isdigit.

Fixpoint group (caps : captures) (name : ascii) : option string :=
  match caps with
  | [] => None
  | (n, v) :: caps' => if Ascii.eqb n name then Some v else group caps' name
  end.

End Re.

Module Strptime.
Import Re.

(** The regular expression of one directive. *)
Definition directive (d : ascii) : result re :=
  if Ascii.eqb d "a" then Ok (Group "a" (any_of Calendar.day_abbr))
  else if Ascii.eqb d "b" then Ok (Group "b" (any_of Calendar.month_abbr))
  else if Ascii.eqb d "d" then
    (* 3[0-1]|[1-2]\d|0[1-9]|[1-9]| [1-9] *)
    Ok (Group "d" (Or (Cat (Lit "3") (range "0" "1"))
                  (Or (Cat (range "1" "2") digit)
                  (Or (Cat (Lit "0") (range "1" "9"))
                  (Or (range "1" "9")
                      (Cat (Lit " ") (range "1" "9")))))))
  else if Ascii.eqb d "Y" then Ok (Group "Y" (Cat digit (Cat digit (Cat digit digit))))
  else if Ascii.eqb d "H" then
    (* 2[0-3]|[0-1]\d|\d *)
    Ok (Group "H" (Or (Cat (Lit "2") (range "0" "3")) (Or (Cat (range "0" "1") digit) digit)))
  else if Ascii.eqb d "M" then
    (* [0-5]\d|\d *)
    Ok (Group "M" (Or (Cat (range "0" "5") digit) digit))
  else if Ascii.eqb d "S" then
    (* 6[0-1]|[0-5]\d|\d *)
    Ok (Group "S" (Or (Cat (Lit "6") (range "0" "1")) (Or (Cat (range "0" "5") digit) digit)))
  else if Ascii.eqb d "Z" then Ok (Group "Z" (any_of ["gmt"; "utc"]))
  else Raise ValueError.

(** The regular expression of a format: a run of whitespace becomes
    [\s+], a directive its group, any other character itself.
    [in_space] is set while inside a run of whitespace. *)
Fixpoint pattern (fmt : string) (in_space : bool) : result re :=
  match fmt with
  | EmptyString => Ok Eps
  | String c rest =>
      if Ascii.eqb c "%" then
        match rest with
        | String d rest' =>
            g ← directive d; r ← pattern rest' false; Ok (Cat g r)
        | EmptyString => Raise ValueError
        end
      else if Str.isspace c then
        r ← pattern rest true; Ok (if in_space then r else Cat Spaces r)
      else
        r ← pattern rest false; Ok (Cat (Lit c) r)
  end.

Fixpoint index_ci (names : list string) (w : string) (i : Z) : option Z :=
  match names with
  | [] => None
  | n :: names' =>
      if String.eqb (lower_str n) (lower_str w) then Some i
      else index_ci names' w (i + 1)
  end.

Definition field (caps : captures) (name : ascii) : result Z :=
  match group caps name with
  | Some v => Str.int v
  | None => Raise ValueError
  end.

(** The six leading fields of the parsed time; [%a] and [%Z] are
    matched and then dropped, the weekday is not compared with the
    date.  [datetime.date(year, month, day)] is built on the way, which
    refuses the days that do not exist. *)
Definition _strptime (data_string format : string) : result (Z * Z * Z * Z * Z * Z) :=
  r ← pattern format false;
  match matches r data_string with
  | None => Raise ValueError
  | Some (String _ _, _) => Raise ValueError     (* unconverted data remains *)
  | Some (EmptyString, caps) =>
      y ← field caps "Y";
      d ← field caps "d";
      h ← field caps "H";
      mi ← field caps "M";
      s ← field caps "S";
      match group caps "b" with
      | None => Raise ValueError
      | Some b =>
          match index_ci Calendar.month_abbr b 1 with
          | None => Raise ValueError
          | Some m =>
              if Calendar.valid_date y m d then Ok (y, m, d, h, mi, s)
              else Raise ValueError
          end
      end
  end.

End Strptime.

(** [datetime(year, month, day, hour, minute, second)] *)
Definition datetime_new (t : Z * Z * Z * Z * Z * Z) : result datetime :=
  let '(y, m, d, h, mi, s) := t in
  if Calendar.valid_date y m d && Calendar.valid_time h mi s
  then Ok (mk_datetime y m d h mi s None)
  else Raise ValueError.

(** [datetime.strptime(text, format)]: a naive datetime, or [ValueError]. *)
Definition datetime_strptime (data_string format : string) : result datetime :=
  t ← Strptime._strptime data_string format; datetime_new t.

(** [time.strptime(text, format)[0:6]] *)
Definition time_strptime (data_string format : string) : result (Z * Z * Z * Z * Z * Z) :=
  Strptime._strptime data_string format.

(** [d.strftime(format)] for the directives of [HTTPDATE_FORMAT]; [%Z]
    prints the zone name of an aware datetime and nothing for a naive
    one.  [%Y] is printed on four digits; the C libraries agree on that
    from the year 1000 on, and below it glibc leaves out the leading
    zeros.  A printed text is used for the time of the clock, and the
    properties of the codec on other dates are stated from the year
    1000 on. *)
Definition strftime_directive (d : datetime) (c : ascii) : string :=
  if Ascii.eqb c "a" then
    nth (Z.to_nat (Calendar.weekday (year d) (month d) (day d))) Calendar.day_abbr EmptyString
  else if Ascii.eqb c "b" then nth (Z.to_nat (month d - 1)) Calendar.month_abbr EmptyString
  else if Ascii.eqb c "d" then pad2 (day d)
  else if Ascii.eqb c "Y" then pad4 (year d)
  else if Ascii.eqb c "H" then pad2 (hour d)
  else if Ascii.eqb c "M" then pad2 (minute d)
  else if Ascii.eqb c "S" then pad2 (second d)
  else if Ascii.eqb c "Z" then match dt_tzinfo d with Some tz => tzname tz | None => EmptyString end
  else if Ascii.eqb c "%" then "%"
  else String "%" (String c EmptyString).

Fixpoint strftime_text (d : datetime) (format : string) : string :=
  match format with
  | EmptyString => EmptyString
  | String c rest =>
      if Ascii.eqb c "%" then
        match rest with
        | String x rest' => strftime_directive d x +:+ strftime_text d rest'
        | EmptyString => "%"
        end
      else String c (strftime_text d rest)
  end.

(** On Python 3 [strftime] accepts every datetime. *)
Definition strftime (d : datetime) (format : string) : result string :=
  Ok (strftime_text d format).

(** ** The date codec of the module *)

Definition HTTPDATE_FORMAT : string := "%a, %d %b %Y %H:%M:%S %Z".
Definition DEFAULT_MAX_AGE : Z := 60 * 60 * 24 * 365.

(** [httpdate_to_datetime]: [None] for [None]; otherwise the try
    statement: the result of [datetime.strptime], under [TypeError] the
    route through [time.strptime] (whose own exceptions are not
    handled), under [ValueError] [None]. *)
Definition httpdate_to_datetime (input_date : option string) : result (option datetime) :=
  match input_date with
  | None => Ok None
  | Some s =>
      match datetime_strptime s HTTPDATE_FORMAT with
      | Ok d => Ok (Some d)
      | Raise TypeError =>
          t ← time_strptime s HTTPDATE_FORMAT; d ← datetime_new t; Ok (Some d)
      | Raise ValueError => Ok None
      | Raise e => Raise e
      end
  end.

(** [datetime_to_httpdate]: [None] for [None]; otherwise the text of
    [strftime], and [None] under [ValueError] or [TypeError]. *)
Definition datetime_to_httpdate (input_date : option datetime) : result (option string) :=
  match input_date with
  | None => Ok None
  | Some d =>
      match strftime d HTTPDATE_FORMAT with
      | Ok s => Ok (Some s)
      | Raise ValueError | Raise TypeError => Ok None
      | Raise e => Raise e
      end
  end.

(** ** SQLite

    The values and the operators that the three statements of the
    module use, following the SQLite documentation: the storage
    classes, NULL propagating through operators and through the scalar
    [max], text read as the integer it starts with wherever a number is
    wanted, and the comparison order NULL, numbers, text, blobs.  There
    are no REAL values: none can arise from the columns of this table. *)

Module Sqlite.

Inductive val : Type :=
  | Null
  | Integer (n : Z)
  | Text (s : string)
  | Blob (b : list Byte.byte).

Definition int64 (n : Z) : bool := (- 2 ^ 63 <=? n) && (n <? 2 ^ 63).

(** Binding a Python [int] to a statement parameter. *)
Definition bind_int (n : Z) : result val :=
  if int64 n then Ok (Integer n) else Raise OverflowError.

Definition isspace (c : ascii) : bool :=
  let n := nat_of_ascii c in ((9 <=? n) && (n <=? 13))%nat || (n =? 32)%nat.

Fixpoint skip_spaces (s : string) : string :=
  match s with
  | String c s' => if isspace c then skip_spaces s' else s
  | EmptyString => EmptyString
  end.

Fixpoint leading_digits (s : string) (acc : Z) : Z :=
  match s with
  | String c s' =>
      if Str.isdigit c then leading_digits s' (10 * acc + Str.digit_value c) else acc
  | EmptyString => acc
  end.

(** The integer at the start of a text, 0 when there is none. *)
Definition int_prefix (s : string) : Z :=
  match skip_spaces s with
  | String c d =>
      if Ascii.eqb c "-" then - leading_digits d 0
      else if Ascii.eqb c "+" then leading_digits d 0
      else leading_digits (String c d) 0
  | EmptyString => 0
  end.

(** The numeric value of an operand of an arithmetic operator. *)
Definition numeric (v : val) : option Z :=
  match v with
  | Null => None
  | Integer n => Some n
  | Text s => Some (int_prefix s)
  | Blob b => Some (int_prefix (string_of_list_byte b))
  end.

(** The condition of [CASE WHEN]: NULL and zero are false. *)
Definition truth (v : val) : bool :=
  match numeric v with
  | Some n => negb (n =? 0)
  | None => false
  end.

Definition sub (a b : val) : val :=
  match numeric a, numeric b with
  | Some x, Some y => Integer (x - y)
  | _, _ => Null
  end.

(** Integer division truncates; division by zero is NULL. *)
Definition div (a b : val) : val :=
  match numeric a, numeric b with
  | Some x, Some y => if y =? 0 then Null else Integer (Z.quot x y)
  | _, _ => Null
  end.

Definition cast_int (v : val) : val :=
  match numeric v with
  | Some n => Integer n
  | None => Null
  end.

(** The order of two values that are not NULL. *)
Definition compare (a b : val) : comparison :=
  match a, b with
  | Integer x, Integer y => Z.compare x y
  | Integer _, _ => Lt
  | _, Integer _ => Gt
  | Text x, Text y => String.compare x y
  | Text _, _ => Lt
  | _, Text _ => Gt
  | Blob x, Blob y => String.compare (string_of_list_byte x) (string_of_list_byte y)
  | _, _ => Eq
  end.

(** [a >= b]: NULL when an operand is NULL, otherwise 1 or 0. *)
Definition ge (a b : val) : val :=
  match a, b with
  | Null, _ | _, Null => Null
  | _, _ => match compare a b with Lt => Integer 0 | _ => Integer 1 end
  end.

(** The scalar [max(a, b)]: NULL when an argument is NULL. *)
Definition max (a b : val) : val :=
  match a, b with
  | Null, _ | _, Null => Null
  | _, _ => match compare a b with Lt => b | _ => a end
  end.

(** *** Date and time functions *)

Definition two (a b : ascii) : option Z :=
  if Str.isdigit a && Str.isdigit b
  then Some (10 * Str.digit_value a + Str.digit_value b) else None.

(** A time value of the form YYYY-MM-DD HH:MM:SS, the one form in which
    the module stores timestamps; other texts are not time values
    here. *)
Definition parse_time_value (s : string) : option (Z * Z * Z * Z * Z * Z) :=
  match list_ascii_of_string s with
  | [y1; y2; y3; y4; c1; m1; m2; c2; d1; d2; c3; h1; h2; c4; i1; i2; c5; s1; s2] =>
      if Ascii.eqb c1 "-" && Ascii.eqb c2 "-" && (Ascii.eqb c3 " " || Ascii.eqb c3 "T")
         && Ascii.eqb c4 ":" && Ascii.eqb c5 ":"
      then
        ya ← two y1 y2; yb ← two y3 y4; m ← two m1 m2; d ← two d1 d2;
        h ← two h1 h2; mi ← two i1 i2; se ← two s1 s2;
        if (1 <=? m) && (m <=? 12) && (1 <=? d) && (d <=? 31)
           && (h <=? 24) && (mi <=? 59) && (se <=? 59)
        then Some (100 * ya + yb, m, d, h, mi, se) else None
      else None
  | _ => None
  end.

(** The julian day number of a time value, in seconds since noon of
    24 November 4714 BC, times two to stay in the integers: SQLite's
    [computeJD]. *)
Definition unix_seconds (t : Z * Z * Z * Z * Z * Z) : Z :=
  let '(y, m, d, h, mi, se) := t in
  let Y := if m <=? 2 then y - 1 else y in
  let M := if m <=? 2 then m + 12 else m in
  let A := Z.quot Y 100 in
  let B := 2 - A + Z.quot A 4 in
  let X1 := Z.quot (36525 * (Y + 4716)) 100 in
  let X2 := Z.quot (306001 * (M + 1)) 10000 in
  (2 * (X1 + X2 + d + B) - 3049) * 43200 + h * 3600 + mi * 60 + se - 210866760000.

Definition decimal (n : Z) : string := NilEmpty.string_of_int (Z.to_int n).

(** [strftime('%s', v)]: the seconds since 1970 as text. *)
Definition strftime_s (v : val) : val :=
  match v with
  | Text s =>
      match parse_time_value s with
      | Some t => Text (decimal (unix_seconds t))
      | None => Null
      end
  | _ => Null
  end.

End Sqlite.

(** ** Payloads

    [Blob] stores [cpickle.dumps(data, -1)] and the converter registered
    for the declared type BLOB reads it back with [cpickle.loads].  The
    pickle module is not part of the repository: it is an interface,
    and both directions can raise. *)

Class Pickle (payload : Type) : Type := {
  dumps : payload -> result (list Byte.byte);
  loads : list Byte.byte -> result payload
}.

(** A payload is serializable when pickle gives it back. *)
Definition serializable `{Pickle payload} (v : payload) : Prop :=
  (dumps v ≫= loads) = Ok v.

(** ** Python values of a result row and of the headers *)

Inductive pyval (payload : Type) : Type :=
  | PNone
  | PInt (n : Z)
  | PStr (s : string)
  | PDatetime (d : datetime)
  | PObj (v : payload).
Arguments PNone {payload}.
Arguments PInt {payload} n.
Arguments PStr {payload} s.
Arguments PDatetime {payload} d.
Arguments PObj {payload} v.

(** The header mapping handed to [set] and [touch], read with
    [headers.get(key)]: the six keys the module reads, text for all of
    them but [age], which is an integer. *)
Record headers : Type := mk_headers {
  h_date : option string;
  h_cache_control : option string;
  h_age : option Z;
  h_etag : option string;
  h_expires : option string;
  h_last_modified : option string
}.

(** ** The table [data]

    One record per row, the columns with the types they are declared
    with; [uri], [blob] and [http_date] are NOT NULL.  A timestamp
    column holds the datetime that sqlite3's adapter writes as ISO text
    and its converter reads back. *)

Record row : Type := mk_row {
  uri : string;
  blob : list Byte.byte;
  http_date : datetime;
  age : option Z;
  etag : option string;
  expires : option datetime;
  last_modified : option datetime;
  max_age : option Z;
  immutable : option Z
}.

(** [datetime.isoformat(" ")], the text sqlite3 stores for a datetime. *)
Definition isoformat (d : datetime) : string :=
  pad4 (year d) +:+ "-" +:+ pad2 (month d) +:+ "-" +:+ pad2 (day d) +:+ " "
  +:+ pad2 (hour d) +:+ ":" +:+ pad2 (minute d) +:+ ":" +:+ pad2 (second d)
  +:+ match dt_tzinfo d with Some _ => "+00:00" | None => EmptyString end.

Definition sql_int (o : option Z) : Sqlite.val :=
  match o with Some n => Sqlite.Integer n | None => Sqlite.Null end.
Definition sql_text (o : option string) : Sqlite.val :=
  match o with Some s => Sqlite.Text s | None => Sqlite.Null end.
Definition sql_timestamp (o : option datetime) : Sqlite.val :=
  match o with Some d => Sqlite.Text (isoformat d) | None => Sqlite.Null end.

(** The rows in the order of their rowid. *)
Definition table : Type := list row.

(** What a [sqlite3.Row] holds: a value per selected column. *)
Abbreviation Row payload := (gmap string (pyval payload)).

Module Cache.
Section WithPickle.
Context {payload : Type} `{Pickle payload}.

Definition py_int (o : option Z) : pyval payload :=
  match o with Some n => PInt n | None => PNone end.
Definition py_str (o : option string) : pyval payload :=
  match o with Some s => PStr s | None => PNone end.
Definition py_datetime (o : option datetime) : pyval payload :=
  match o with Some d => PDatetime d | None => PNone end.
Definition py_of_sql (v : Sqlite.val) : pyval payload :=
  match v with
  | Sqlite.Integer n => PInt n
  | Sqlite.Text s => PStr s
  | _ => PNone
  end.

(** [_execute]: the statement runs in a transaction of its own, which
    is rolled back when it fails.  The handler of [IntegrityError] and
    [OperationalError] prints [e.message]; Python 3 exceptions have no
    such attribute, so there the handler ends in [AttributeError]
    (Python 2 prints and returns [None]).  The store is the same in
    both cases: a result that is not [Ok] leaves the table as it was. *)
Definition _execute {A} (statement : result A) : result A :=
  match statement with
  | Ok a => Ok a
  | Raise IntegrityError | Raise OperationalError => Raise AttributeError
  | Raise e => Raise e
  end.

(** The table after an operation: the new one, or the old one when the
    operation raised. *)
Definition store_after (r : result table) (t : table) : table :=
  match r with
  | Ok t' => t'
  | Raise _ => t
  end.

(** The freshness column of [get]:
[[
  CASE WHEN max_age THEN max(age, max_age)
       ELSE CASE WHEN expires THEN expires - http_date
                 ELSE cast((datetime('now') - last_modified) / 10 as int) END
  END >= strftime('%s', datetime('now')) - strftime('%s', http_date)
]]
    [now] is the current time in UTC. *)
Definition fresh (r : row) (now : datetime) : Sqlite.val :=
  let datetime_now := Sqlite.Text (isoformat now) in
  let c_http_date := sql_timestamp (Some (http_date r)) in
  let c_age := sql_int (age r) in
  let c_expires := sql_timestamp (expires r) in
  let c_last_modified := sql_timestamp (last_modified r) in
  let c_max_age := sql_int (max_age r) in
  Sqlite.ge
    (if Sqlite.truth c_max_age then Sqlite.max c_age c_max_age
     else if Sqlite.truth c_expires then Sqlite.sub c_expires c_http_date
     else Sqlite.cast_int (Sqlite.div (Sqlite.sub datetime_now c_last_modified) (Sqlite.Integer 10)))
    (Sqlite.sub (Sqlite.strftime_s datetime_now) (Sqlite.strftime_s c_http_date)).

(** [Blob.__conform__]: the pickled content. *)
Definition __conform__ (content : payload) : result (list Byte.byte) := dumps content.

(** The adaptation of a [Blob] when the statement binds it: sqlite3
    drops a [TypeError] of [__conform__] and then fails to bind the
    [Blob] itself, with [ProgrammingError]; any other exception goes
    through. *)
Definition adapt (content : payload) : result (list Byte.byte) :=
  match __conform__ content with
  | Raise TypeError => Raise ProgrammingError
  | r => r
  end.

(** [Blob.deserialise] *)
Definition deserialise (data : list Byte.byte) : result payload := loads data.

(** The row that the SELECT of [get] yields for a table row:
    [blob, last_modified, etag, immutable] and [fresh]. *)
Definition get_row (now : datetime) (r : row) : result (Row payload) :=
  b ← deserialise (blob r);
  Ok (<["blob" := PObj b]>
     (<["last_modified" := py_datetime (last_modified r)]>
     (<["etag" := py_str (etag r)]>
     (<["immutable" := py_int (immutable r)]>
     (<["fresh" := py_of_sql (fresh r now)]> ∅))))).

Definition where_uri (u : string) (r : row) : bool := String.eqb (uri r) u.

(** [get(uri)]: [fetchone()] of the SELECT, [None] without a row.  The
    converters run when the row is fetched. *)
Definition get (u : string) (now : datetime) (t : table) : result (option (Row payload)) :=
  selected ← _execute (Ok (List.find (where_uri u) t));
  match selected with
  | None => Ok None
  | Some r => Some <$> get_row now r
  end.

(** [REPLACE INTO data (...) VALUES (...)]: the integers must fit the
    64 bits of SQLite, [http_date] must not be NULL (no default, so the
    statement aborts); the row with the same uri, if any, is deleted
    and the new row is added. *)
Definition replace_into (u : string) (b : list Byte.byte) (d : option datetime)
    (a : option Z) (e : option string) (ex lm : option datetime)
    (ma im : option Z) (t : table) : result table :=
  if negb (forallb Sqlite.int64 (omap id [a; ma; im])) then Raise OverflowError
  else
    match d with
    | None => Raise IntegrityError
    | Some d =>
        Ok (List.filter (fun r => negb (where_uri u r)) t
            ++ [mk_row u b d a e ex lm ma im])%list
    end.

(** The value bound for a directive: an [int], or [True], which sqlite3
    writes as 1. *)
Definition directive_int (o : option dval) : option Z :=
  match o with
  | Some (DInt n) => Some n
  | Some DTrue => Some 1
  | None => None
  end.

(** The headers [set] uses when it gets none: the date of now in GMT
    and a year of immutability. *)
Definition default_headers (now : datetime) : result headers :=
  d ← datetime_to_httpdate
         (Some (mk_datetime (year now) (month now) (day now)
                            (hour now) (minute now) (second now) (Some GMT)));
  Ok (mk_headers d (Some ("immutable, max-age=" +:+ Sqlite.decimal DEFAULT_MAX_AGE))
                 None None None None).

(** [set(uri, content, headers=None)] *)
Definition set (u : string) (content : payload) (hs : option headers)
    (now : datetime) (t : table) : result table :=
  hs ← match hs with None => default_headers now | Some h => Ok h end;
  directives ← _parse_cache_control (h_cache_control hs);
  if decide (is_Some (directives !! "no-store")) then Ok t
  else
    d ← httpdate_to_datetime (h_date hs);
    ex ← httpdate_to_datetime (h_expires hs);
    lm ← httpdate_to_datetime (h_last_modified hs);
    _execute (b ← adapt content;
              replace_into u b d (h_age hs) (h_etag hs) ex lm
                (directive_int (directives !! "max-age"))
                (directive_int (directives !! "immutable")) t).

(** [UPDATE data SET http_date=?, age=?, expires=?, last_modified=?,
    max_age=? WHERE uri=?]: the rows of that uri get the five values;
    a NULL [http_date] aborts the statement as soon as a row is
    concerned. *)
Definition update_row (d : datetime) (a : option Z) (ex lm : option datetime)
    (ma : option Z) (r : row) : row :=
  mk_row (uri r) (blob r) d a (etag r) ex lm ma (immutable r).

Definition update_meta (u : string) (d : option datetime) (a : option Z)
    (ex lm : option datetime) (ma : option Z) (t : table) : result table :=
  if negb (forallb Sqlite.int64 (omap id [a; ma])) then Raise OverflowError
  else
    match d with
    | None => if existsb (where_uri u) t then Raise IntegrityError else Ok t
    | Some d => Ok (List.map (fun r => if where_uri u r then update_row d a ex lm ma r else r) t)
    end.

(** [touch(uri, headers)] *)
Definition touch (u : string) (hs : headers) (t : table) : result table :=
  directives ← _parse_cache_control (h_cache_control hs);
  d ← httpdate_to_datetime (h_date hs);
  ex ← httpdate_to_datetime (h_expires hs);
  lm ← httpdate_to_datetime (h_last_modified hs);
  _execute (update_meta u d (h_age hs) ex lm (directive_int (directives !! "max-age")) t).

(** [delete(uri)] *)
Definition delete (u : string) (t : table) : result table :=
  _execute (Ok (List.filter (fun r => negb (where_uri u r)) t)).

(** [clear()] *)
Definition clear (t : table) : result table :=
  t' ← _execute (Ok ([] : table)); _execute (Ok t').

(** [x LIKE p]: [%] stands for any run of characters, [_] for one
    character, and ASCII letters match without regard to case. *)
Fixpoint like (p x : string) : bool :=
  match p with
  | EmptyString => match x with EmptyString => true | _ => false end
  | String c p' =>
      if Ascii.eqb c "%" then
        (fix any (x : string) : bool :=
           like p' x || match x with String _ x' => any x' | EmptyString => false end) x
      else
        match x with
        | String c' x' => (Ascii.eqb c "_" || Re.ci_eqb c c') && like p' x'
        | EmptyString => false
        end
  end.

(** [ORDER BY http_date]: the stored texts in the order of their bytes. *)
Definition by_http_date (r1 r2 : row) : Prop :=
  String.le (isoformat (http_date r1)) (isoformat (http_date r2)).

#[global] Instance by_http_date_dec : RelDecision by_http_date.
Proof. intros r1 r2. unfold by_http_date. apply _. Defined.

(** [LIMIT n]: the first [n] rows, all of them when [n] is negative. *)
Definition limit_rows {A} (n : Z) (l : list A) : list A :=
  if n <? 0 then l else firstn (Z.to_nat n) l.


(** The sort of [ORDER BY http_date] under a LIMIT clause: SQLite keys
    each row by its [http_date] and its rank in the scan of the table,
    so rows of the same [http_date] come in the order of the table. *)
Fixpoint insert_by_http_date (r : row) (sorted : list row) : list row :=
  match sorted with
  | [] => [r]
  | x :: sorted' =>
      if decide (by_http_date r x) then r :: sorted
      else x :: insert_by_http_date r sorted'
  end.

Definition order_by_http_date (rows : list row) : list row :=
  foldr insert_by_http_date [] rows.

(** The table rows selected by
    [select * from data where uri like ? order by http_date limit ?]
    with the pattern ['%{}%'.format(domain)]. *)
Definition domain_rows (dom : string) (limit : Z) (t : table) : list row :=
  limit_rows limit
    (order_by_http_date
       (List.filter (fun r => like ("%" +:+ dom +:+ "%") (uri r)) t)).


End WithPickle.
End Cache.

(** [conditional_headers(row)]: [row[key]] raises [IndexError] for a
    column the row does not have; the values are those of the row. *)
Definition subscript {payload} (r : Row payload) (key : string)
  : result (pyval payload) :=
  match r !! key with
  | Some v => Ok v
  | None => Raise IndexError
  end.

Definition conditional_headers {payload} (r : Row payload) : result (Row payload) :=
  let headers : Row payload := ∅ in
  e ← subscript r "etag";
  headers ← match e with
            | PNone => Ok headers
            | _ => Ok (<["If-None-Match" := e]> headers)
            end;
  lm ← subscript r "last_modified";
  match lm with
  | PNone => Ok headers
  | PDatetime d =>
      s ← datetime_to_httpdate (Some d);
      Ok (<["If-Modified-Since" := match s with Some s => PStr s | None => PNone end]> headers)
  | _ => Raise AttributeError
  end.

(** ** [Store]: a set of strings under one key of the cache

    The operations are those of a store whose [db] is a database that
    [Cache] opens; each of them works on the table through one
    connection of its own.  The payloads of such a cache are Python
    sets of strings and other objects; the other objects are taken to
    have no method [add] or [remove], as the built-in types. *)

Inductive object (other : Type) : Type :=
  | PySet (s : gset string)
  | PyOther (o : other).
Arguments PySet {other} s.
Arguments PyOther {other} o.

(** The outcome of [Store.remove], which can end in [KeyError]. *)
Inductive removal : Type :=
  | Removed (t : table)
  | KeyError (item : string)
  | RemoveRaised (e : exn).

Module Store.
Section WithPickle.
Context {other : Type} `{Pickle (object other)}.

(** [retrieve()]: [data["blob"] if data else set()] for the row that
    [get] returns for the key. *)
Definition retrieve (key : string) (now : datetime) (t : table)
  : result (pyval (object other)) :=
  data ← Cache.get key now t;
  match data with
  | Some data => subscript data "blob"
  | None => Ok (PObj (PySet ∅))
  end.

(** [_save(data)]: [set] without headers, for a set only. *)
Definition _save (key : string) (data : pyval (object other)) (now : datetime)
    (t : table) : result table :=
  match data with
  | PObj (PySet s) => Cache.set key (PySet s) None now t
  | _ => Ok t
  end.

(** [append(item)] *)
Definition append (key item : string) (now : datetime) (t : table) : result table :=
  current ← retrieve key now t;
  current ← match current with
            | PObj (PySet s) => Ok (PObj (PySet ({[item]} ∪ s)))
            | _ => Raise AttributeError
            end;
  _save key current now t.

(** [remove(item)]: [set.remove] raises [KeyError] for an item that is
    not in the set. *)
Definition remove (key item : string) (now : datetime) (t : table) : removal :=
  match retrieve key now t with
  | Ok (PObj (PySet s)) =>
      if decide (item ∈ s) then
        match _save key (PObj (PySet (s ∖ {[item]}))) now t with
        | Ok t' => Removed t'
        | Raise e => RemoveRaised e
        end
      else KeyError item
  | Ok _ => RemoveRaised AttributeError
  | Raise e => RemoveRaised e
  end.

(** [clear()] *)
Definition clear (key : string) (t : table) : result table := Cache.delete key t.

End WithPickle.
End Store.

(** ** [_row_factory] *)

(** [Cache._row_factory(cursor, row)]: the dict comprehension over
    [enumerate(cursor.description)], [description] being the column
    names [col[0]]; [row[idx]] raises [IndexError] past the end of the
    row. *)
Fixpoint _row_factory_from {V : Type} (idx : nat) (description : list string)
    (row : list V) (acc : gmap string V) : result (gmap string V) :=
  match description with
  | [] => Ok acc
  | col :: description =>
      match row !! idx with
      | Some v => _row_factory_from (S idx) description row (<[col := v]> acc)
      | None => Raise IndexError
      end
  end.

Definition _row_factory {V : Type} (description : list string) (row : list V)
  : result (gmap string V) :=
  _row_factory_from 0 description row ∅.

(** ** Definitions used to state the properties *)

(** The name a token of the Cache-Control header contributes. *)
Definition directive_name (token : string) : string :=
  Str.strip (hd EmptyString (Str.split "=" token)).

(** The directive names of a Cache-Control value. *)
Definition directive_names (header : string) : list string :=
  List.map directive_name (Str.split "," header).

(** The parser as the specification words it: each token is cut at its
    first ['='] into a name and an optional value. *)
Module Spec.

Fixpoint split_first (sep : ascii) (s : string) : string * option string :=
  match s with
  | EmptyString => (EmptyString, None)
  | String c s' =>
      if Ascii.eqb c sep then (EmptyString, Some s')
      else let '(n, v) := split_first sep s' in (String c n, v)
  end.

Definition directive_item (token : string) : result (string * dval) :=
  match split_first "=" token with
  | (name, Some v) => n ← Str.int v; Ok (Str.strip name, DInt n)
  | (name, None) => Ok (Str.strip name, DTrue)
  end.

Fixpoint comprehension (tokens : list string) (acc : gmap string dval)
  : result (gmap string dval) :=
  match tokens with
  | [] => Ok acc
  | t :: ts => kv ← directive_item t; comprehension ts (<[kv.1 := kv.2]> acc)
  end.

Definition parse (header : option string) : result (gmap string dval) :=
  match header with
  | None => Ok ∅
  | Some h => comprehension (Str.split "," h) ∅
  end.

End Spec.

Fixpoint count_char (c : ascii) (s : string) : nat :=
  match s with
  | EmptyString => O
  | String c' s' => (if Ascii.eqb c' c then 1 else 0) + count_char c s'
  end.

(** A token up to its second ['='], which is left out. *)
Definition upto_second_eq (token : string) : string :=
  match Spec.split_first "=" token with
  | (name, None) => name
  | (name, Some v) => name +:+ String "=" (Spec.split_first "=" v).1
  end.





(** A pickle for payloads that are byte strings already, stored as they
    are: an instance to run the operations on. *)
#[global] Instance text_pickle : Pickle string := {|
  dumps := fun s => Ok (list_byte_of_string s);
  loads := fun b => Ok (string_of_list_byte b)
|}.


(** The rows of [t] whose uri matches [%dom%]. *)
Definition matching (dom : string) (t : table) : list row :=
  List.filter (fun r => Cache.like ("%" +:+ dom +:+ "%") (uri r)) t.

(** [LIKE] with a pattern that starts with [%]: the rest of the pattern
    is tried at every position. *)
Definition like_any (p : string) : string -> bool :=
  fix any (x : string) : bool :=
    Cache.like p x || match x with String _ x' => any x' | EmptyString => false end.

(** The text [s] between two double quotes, as in an entity tag. *)
Definition quoted (s : string) : string :=
  String (ascii_of_nat 34) (s +:+ String (ascii_of_nat 34) EmptyString).

(** The seconds since 1970 that SQLite reads in the stored text of a
    datetime. *)
Definition seconds_of (d : datetime) : Z :=
  Sqlite.unix_seconds (year d, month d, day d, hour d, minute d, second d).

(** A datetime as [strptime] builds them: a date and a time that exist,
    and no zone. *)
Definition naive_valid (d : datetime) : Prop :=
  valid_datetime d = true /\ dt_tzinfo d = None.

(** The freshness lifetime that the query of [get] computes for a row:
    [max(age, max_age)] under a [max_age] that is not zero, NULL as
    soon as [age] is; otherwise the difference of the years of
    [expires] and [http_date]; otherwise a tenth of the years since
    [last_modified]. *)
Definition lifetime (r : row) (now : datetime) : option Z :=
  match max_age r with
  | Some m =>
      if m =? 0 then
        match expires r with
        | Some e => Some (year e - year (http_date r))
        | None => (fun lm => Z.quot (year now - year lm) 10) <$> last_modified r
        end
      else (fun a => Z.max a m) <$> age r
  | None =>
      match expires r with
      | Some e => Some (year e - year (http_date r))
      | None => (fun lm => Z.quot (year now - year lm) 10) <$> last_modified r
      end
  end.

(** A row whose timestamps are datetimes as [strptime] builds them. *)
Definition valid_row (r : row) : Prop :=
  naive_valid (http_date r)
  /\ (forall e, expires r = Some e -> naive_valid e)
  /\ (forall lm, last_modified r = Some lm -> naive_valid lm).


(** The value of a decimal numeral read from the left, [acc] being the
    value of the digits already read. *)
Fixpoint uint_value (u : Decimal.uint) (acc : Z) : Z :=
  match u with
  | Decimal.Nil => acc
  | Decimal.D0 u => uint_value u (10 * acc)
  | Decimal.D1 u => uint_value u (10 * acc + 1)
  | Decimal.D2 u => uint_value u (10 * acc + 2)
  | Decimal.D3 u => uint_value u (10 * acc + 3)
  | Decimal.D4 u => uint_value u (10 * acc + 4)
  | Decimal.D5 u => uint_value u (10 * acc + 5)
  | Decimal.D6 u => uint_value u (10 * acc + 6)
  | Decimal.D7 u => uint_value u (10 * acc + 7)
  | Decimal.D8 u => uint_value u (10 * acc + 8)
  | Decimal.D9 u => uint_value u (10 * acc + 9)
  end.

(** A computation that raises nothing but [ValueError]. *)
Definition value_error_only {A} (m : result A) : Prop :=
  forall e, m = Raise e -> e = ValueError.

(** The tables that the operations of the cache build from the empty
    one; an operation that raises leaves the table as it was. *)
Inductive reachable `{Pickle payload} : table -> Prop :=
  | reachable_new : reachable []
  | reachable_set u (v : payload) hs now t :
      reachable t -> reachable (Cache.store_after (Cache.set u v hs now t) t)
  | reachable_touch u hs t :
      reachable t -> reachable (Cache.store_after (Cache.touch u hs t) t)
  | reachable_delete u t :
      reachable t -> reachable (Cache.store_after (Cache.delete u t) t)
  | reachable_clear t :
      reachable t -> reachable (Cache.store_after (Cache.clear t) t).

(** The HTTP-date text of a datetime with the [i]-th weekday name. *)
Definition httpdate_text (i : nat) (d : datetime) : string :=
  nth i Calendar.day_abbr EmptyString +:+ ", " +:+ pad2 (day d) +:+ " "
  +:+ nth (Z.to_nat (month d - 1)) Calendar.month_abbr EmptyString +:+ " "
  +:+ pad4 (year d) +:+ " " +:+ pad2 (hour d) +:+ ":" +:+ pad2 (minute d) +:+ ":"
  +:+ pad2 (second d) +:+ " GMT".

(** The datetime without its zone, and with the zone GMT. *)
Definition naive (d : datetime) : datetime :=
  mk_datetime (year d) (month d) (day d) (hour d) (minute d) (second d) None.
Definition in_gmt (d : datetime) : datetime :=
  mk_datetime (year d) (month d) (day d) (hour d) (minute d) (second d) (Some GMT).

(** A pickle for sets of strings and for texts, to run the store on.  A set is written as its elements, each character after a
    byte 1 and each element closed by a byte 0. *)
Fixpoint dump_strings (l : list string) : list Byte.byte :=
  match l with
  | [] => []
  | s :: l =>
      (flat_map (fun b => [Byte.x01; b]) (list_byte_of_string s)
       ++ Byte.x00 :: dump_strings l)%list
  end.

Fixpoint load_strings (b cur : list Byte.byte) : option (list string) :=
  match b with
  | [] => match cur with [] => Some [] | _ => None end
  | Byte.x00 :: b => cons (string_of_list_byte (rev cur)) <$> load_strings b []
  | _ :: c :: b => load_strings b (c :: cur)
  | _ => None
  end.

(** The rows whose [http_date] is stored as the text [s]. *)
Definition dated (s : string) (r : row) : bool :=
  String.eqb (isoformat (http_date r)) s.

(** A pickle for objects that cannot be pickled, as a lock:
    [cpickle.dumps] ends in [TypeError]. *)
Definition unpicklable : Pickle unit := {|
  dumps := fun _ => Raise TypeError;
  loads := fun _ => Raise UnpicklingError
|}.

Definition set_pickle : Pickle (object string) := {|
  dumps := fun v =>
    match v with
    | PySet s => Ok (Byte.x01 :: dump_strings (elements s))
    | PyOther o => Ok (Byte.x00 :: list_byte_of_string o)
    end;
  loads := fun b =>
    match b with
    | Byte.x01 :: b =>
        match load_strings b [] with
        | Some l => Ok (PySet (list_to_set l))
        | None => Raise UnpicklingError
        end
    | Byte.x00 :: b => Ok (PyOther (string_of_list_byte b))
    | _ => Raise UnpicklingError
    end
|}.

(** * Properties *)

(** ** Strings *)

Lemma append_cons c a b : String c a +:+ b = String c (a +:+ b).
Proof. reflexivity. Qed.

Lemma append_nil_l a : EmptyString +:+ a = a.
Proof. reflexivity. Qed.

Lemma append_assoc a b c : (a +:+ b) +:+ c = a +:+ (b +:+ c).
Proof.
  induction a as [|x a IH]; [reflexivity|].
  by rewrite !append_cons, IH.
Qed.

(** ** The directive parser *)

Lemma split_first_split sep s :
  Str.split sep s =
  match Spec.split_first sep s with
  | (n, None) => [n]
  | (n, Some v) => n :: Str.split sep v
  end.
Proof.
  induction s as [|c s IH]; simpl; [done|].
  destruct (Ascii.eqb c sep); [done|].
  rewrite IH. by destruct (Spec.split_first sep s) as [n [v|]].
Qed.

Lemma split_no_sep sep s : count_char sep s = O -> Str.split sep s = [s].
Proof.
  induction s as [|c s IH]; simpl; [done|].
  destruct (Ascii.eqb c sep); [done|]. intros Hc. by rewrite IH.
Qed.

Lemma split_first_count sep s :
  count_char sep s =
  match Spec.split_first sep s with
  | (_, None) => O
  | (_, Some v) => S (count_char sep v)
  end.
Proof.
  induction s as [|c s IH]; simpl; [done|].
  destruct (Ascii.eqb c sep); [done|].
  rewrite IH. by destruct (Spec.split_first sep s) as [n [v|]].
Qed.

Lemma split_first_name_count sep s : count_char sep (Spec.split_first sep s).1 = O.
Proof.
  induction s as [|c s IH]; simpl; [done|].
  destruct (Ascii.eqb c sep) eqn:E; [done|].
  destruct (Spec.split_first sep s) as [n v]; simpl in *. by rewrite E.
Qed.

Lemma split_first_app sep n v :
  count_char sep n = O -> Spec.split_first sep (n +:+ String sep v) = (n, Some v).
Proof.
  induction n as [|c n IH]; simpl.
  - by rewrite Ascii.eqb_refl.
  - destruct (Ascii.eqb c sep); [done|]. intros Hc. by rewrite IH.
Qed.

Lemma split_first_no_sep sep s :
  count_char sep s = O -> Spec.split_first sep s = (s, None).
Proof.
  induction s as [|c s IH]; simpl; [done|].
  destruct (Ascii.eqb c sep); [done|]. intros Hc. by rewrite IH.
Qed.

(** A token with at most one ['=']: both readings give the same item. *)
Lemma directive_item_one_eq token :
  (count_char "=" token <= 1)%nat -> directive_item token = Spec.directive_item token.
Proof.
  intros Hc. unfold directive_item, Spec.directive_item.
  rewrite split_first_split. rewrite split_first_count in Hc.
  destruct (Spec.split_first "=" token) as [n [v|]]; [|done].
  rewrite split_no_sep by lia. done.
Qed.

(** Every token: the code reads it as the specification reads the token
    cut before its second ['=']. *)
Lemma directive_item_upto token :
  directive_item token = Spec.directive_item (upto_second_eq token).
Proof.
  unfold directive_item, Spec.directive_item, upto_second_eq.
  rewrite split_first_split.
  pose proof (split_first_name_count "=" token) as Hn.
  destruct (Spec.split_first "=" token) as [n [v|]]; simpl in Hn.
  - rewrite split_first_app by done.
    rewrite (split_first_split "=" v).
    destruct (Spec.split_first "=" v) as [v1 [w|]]; done.
  - by rewrite split_first_no_sep.
Qed.

Lemma comprehension_ext (f g : list string) acc :
  Forall2 (fun a b => directive_item a = Spec.directive_item b) f g ->
  comprehension f acc = Spec.comprehension g acc.
Proof.
  intros HF. revert acc. induction HF as [|a b f g Hab _ IH]; intros acc; simpl; [done|].
  rewrite Hab. destruct (Spec.directive_item b) as [kv|e]; simpl; [apply IH|done].
Qed.

Lemma directive_item_name token kv :
  directive_item token = Ok kv -> kv.1 = directive_name token.
Proof.
  unfold directive_item, directive_name.
  destruct (Str.split "=" token) as [|n [|v rest]]; simpl.
  - by intros [= <-].
  - by intros [= <-].
  - destruct (Str.int v); simpl; [by intros [= <-]|done].
Qed.

Lemma comprehension_keys tokens acc m k :
  comprehension tokens acc = Ok m ->
  In k (List.map directive_name tokens) \/ is_Some (acc !! k) ->
  is_Some (m !! k).
Proof.
  revert acc. induction tokens as [|t ts IH]; intros acc; simpl.
  - intros [= <-] [[]|Hk]; done.
  - destruct (directive_item t) as [kv|e] eqn:E; simpl; [|done].
    intros Hm Hk. apply (IH _ Hm).
    apply directive_item_name in E.
    destruct Hk as [[Hk|Hk]|Hk].
    + right. rewrite E, Hk. rewrite lookup_insert_eq. by eexists.
    + by left.
    + right. destruct (decide (kv.1 = k)) as [->|Hne].
      * rewrite lookup_insert_eq. by eexists.
      * by rewrite lookup_insert_ne.
Qed.

Lemma parse_no_store header m :
  In "no-store" (directive_names header) ->
  _parse_cache_control (Some header) = Ok m -> is_Some (m !! "no-store").
Proof.
  intros Hin Hm. eapply comprehension_keys; [exact Hm|]. by left.
Qed.

(** C4, as the specification words it, fails: a token with a second
    ['='] is read by the code up to that second sign, so
    ["max-age=1=2"] gives [max-age = 1], where a value taken from the
    first ['='] on would be ["1=2"], which is no integer. *)
Lemma parse_cache_control_second_eq :
  _parse_cache_control (Some "max-age=1=2") = Ok {[ "max-age" := DInt 1 ]}
  /\ Spec.parse (Some "max-age=1=2") = Raise ValueError
  /\ _parse_cache_control (Some "max-age=1=2") <> Spec.parse (Some "max-age=1=2").
Proof. split; [|split]; [reflexivity|reflexivity|discriminate]. Qed.

(** C4, amended: the parser maps an absent header to the empty mapping;
    it splits the header on [','] into tokens and each token on ['=']
    into parts, the name being the first part, trimmed, and the value
    the second part, parsed as an integer, whatever follows a second
    ['='] being ignored; a token without ['='] maps its name to true.
    For a header whose tokens have at most one ['='] this is the split
    at the first ['=']. *)
Theorem parse_cache_control_spec :
  _parse_cache_control None = Ok ∅
  /\ (forall h,
        Forall (fun token => (count_char "=" token <= 1)%nat) (Str.split "," h) ->
        _parse_cache_control (Some h) = Spec.parse (Some h))
  /\ (forall h,
        _parse_cache_control (Some h)
        = Spec.comprehension (List.map upto_second_eq (Str.split "," h)) ∅)
  /\ _parse_cache_control (Some "max-age=100, immutable")
     = Ok (<["max-age" := DInt 100]> {[ "immutable" := DTrue ]})
  /\ _parse_cache_control (Some "no-store") = Ok {[ "no-store" := DTrue ]}.
Proof.
  split; [reflexivity|]. split; [|split; [|split; reflexivity]].
  - intros h Hall. simpl. apply comprehension_ext.
    induction Hall as [|token l Htoken _ IH]; constructor; [|exact IH].
    by apply directive_item_one_eq.
  - intros h. simpl. apply comprehension_ext.
    induction (Str.split "," h) as [|token l IH]; constructor; [|exact IH].
    apply directive_item_upto.
Qed.

Lemma parse_cache_control_spec_witness :
  _parse_cache_control (Some "max-age=100, immutable")
  = Spec.parse (Some "max-age=100, immutable").
Proof.
  apply (proj1 (proj2 parse_cache_control_spec)).
  vm_compute. repeat constructor.
Defined.

(** ** [set] under no-store *)

Lemma get_no_row `{Pickle payload} u now (t : table) :
  List.find (Cache.where_uri u) t = None -> Cache.get u now t = Ok None.
Proof. intros Hf. unfold Cache.get. simpl. by rewrite Hf. Qed.

(** C2: when the cache-control value of the headers has the directive
    no-store, [set] leaves the table as it was, whatever else the
    headers hold, returns normally whenever the directives parse, and
    a uri without a row before has none after: [get] returns [None]. *)
Theorem set_no_store `{Pickle payload} (u : string) (v : payload) (hs : headers)
    (cc : string) (now : datetime) (t : table) :
  h_cache_control hs = Some cc ->
  In "no-store" (directive_names cc) ->
  Cache.store_after (Cache.set u v (Some hs) now t) t = t
  /\ (returns (_parse_cache_control (Some cc)) -> Cache.set u v (Some hs) now t = Ok t)
  /\ (forall now',
        List.find (Cache.where_uri u) t = None ->
        Cache.get u now' (Cache.store_after (Cache.set u v (Some hs) now t) t) = Ok None).
Proof.
  intros Hcc Hin.
  assert (Hset : Cache.set u v (Some hs) now t = Ok t
                 \/ exists e, Cache.set u v (Some hs) now t = Raise e
                              /\ _parse_cache_control (Some cc) = Raise e).
  { unfold Cache.set. simpl. rewrite Hcc.
    destruct (_parse_cache_control (Some cc)) as [m|e] eqn:Hm; simpl.
    - left. pose proof (parse_no_store cc m Hin Hm). by rewrite decide_True.
    - right. by exists e. }
  split; [|split].
  - destruct Hset as [->|(e & -> & _)]; done.
  - intros [m Hm]. destruct Hset as [->|(e & _ & He)]; [done|congruence].
  - intros now' Hf.
    replace (Cache.store_after (Cache.set u v (Some hs) now t) t) with t
      by (destruct Hset as [->|(e & -> & _)]; done).
    by apply get_no_row.
Qed.

Lemma set_no_store_witness :
  let hs := mk_headers (Some "Wed, 21 Oct 2015 07:28:00 GMT")
                       (Some "max-age=60, no-store") None None None None in
  let now := mk_datetime 2015 10 21 7 28 0 None in
  Cache.store_after (Cache.set "u" "v" (Some hs) now []) [] = []
  /\ (returns (_parse_cache_control (Some "max-age=60, no-store")) ->
      Cache.set "u" "v" (Some hs) now [] = Ok [])
  /\ (forall now',
        List.find (Cache.where_uri "u") ([] : table) = None ->
        Cache.get "u" now' (Cache.store_after (Cache.set "u" "v" (Some hs) now []) [])
        = Ok None).
Proof.
  intros hs now.
  apply (set_no_store "u" "v" hs "max-age=60, no-store" now []).
  - reflexivity.
  - vm_compute. right. left. reflexivity.
Defined.

(** ** The date codec *)

Lemma value_error_only_bind {A B} (m : result A) (f : A -> result B) :
  value_error_only m -> (forall a, value_error_only (f a)) -> value_error_only (m ≫= f).
Proof.
  intros Hm Hf e. destruct m as [a|e']; simpl.
  - apply Hf.
  - intros [= <-]. by apply Hm.
Qed.

Lemma value_error_only_Ok {A} (a : A) : value_error_only (Ok a).
Proof. intros e; discriminate. Qed.

Lemma value_error_only_Raise {A} : value_error_only (Raise ValueError : result A).
Proof. by intros e [= <-]. Qed.

Lemma int_unsigned_value_error d : value_error_only (Str.int_unsigned d).
Proof.
  unfold Str.int_unsigned.
  destruct (Str.digits d 0 0 false) as [[n count]|];
    [destruct (count <=? Str.int_max_str_digits)|];
    auto using value_error_only_Ok, value_error_only_Raise.
Qed.

Lemma int_value_error s : value_error_only (Str.int s).
Proof.
  assert (Hopp : forall d, value_error_only (Z.opp <$> Str.int_unsigned d)).
  { intros d e. pose proof (int_unsigned_value_error d e) as Hd.
    destruct (Str.int_unsigned d); [done|]. intros [= <-]. by apply Hd. }
  unfold Str.int.
  repeat match goal with
         | |- value_error_only (match ?x with _ => _ end) => destruct x
         end;
    auto using int_unsigned_value_error.
Qed.

Lemma field_value_error caps name : value_error_only (Strptime.field caps name).
Proof.
  unfold Strptime.field. destruct (Re.group caps name);
    auto using int_value_error, value_error_only_Raise.
Qed.

Lemma directive_value_error d : value_error_only (Strptime.directive d).
Proof.
  unfold Strptime.directive.
  repeat match goal with
         | |- value_error_only (if ?x then _ else _) => destruct x
         end;
    auto using value_error_only_Ok, value_error_only_Raise.
Qed.

Lemma pattern_cons c rest b :
  Strptime.pattern (String c rest) b =
  if Ascii.eqb c "%" then
    match rest with
    | String d rest' =>
        g ← Strptime.directive d; r ← Strptime.pattern rest' false; Ok (Re.Cat g r)
    | EmptyString => Raise ValueError
    end
  else if Str.isspace c then
    r ← Strptime.pattern rest true; Ok (if b then r else Re.Cat Re.Spaces r)
  else
    r ← Strptime.pattern rest false; Ok (Re.Cat (Re.Lit c) r).
Proof. reflexivity. Qed.

Lemma pattern_value_error_step fmt :
  (forall b, value_error_only (Strptime.pattern fmt b))
  /\ (forall c b, value_error_only (Strptime.pattern (String c fmt) b)).
Proof.
  induction fmt as [|a fmt [IH1 IH2]].
  - split; [intros b; apply value_error_only_Ok|].
    intros c b. simpl. destruct (Ascii.eqb c "%"); [apply value_error_only_Raise|].
    destruct (Str.isspace c); apply value_error_only_Ok.
  - split; [intros b; apply IH2|].
    intros c b. rewrite pattern_cons. destruct (Ascii.eqb c "%").
    + apply value_error_only_bind; [apply directive_value_error|]. intros g.
      apply value_error_only_bind; [apply IH1|].
      intros r. apply value_error_only_Ok.
    + destruct (Str.isspace c);
        (apply value_error_only_bind; [apply IH2|]);
        intros r; apply value_error_only_Ok.
Qed.

Lemma pattern_value_error fmt b : value_error_only (Strptime.pattern fmt b).
Proof. apply pattern_value_error_step. Qed.

Lemma _strptime_value_error s fmt : value_error_only (Strptime._strptime s fmt).
Proof.
  unfold Strptime._strptime.
  apply value_error_only_bind; [apply pattern_value_error|]. intros r.
  destruct (Re.matches r s) as [[[|c rest] caps]|];
    try apply value_error_only_Raise.
  repeat (apply value_error_only_bind; [apply field_value_error|]; intros ?).
  destruct (Re.group caps "b"); [|apply value_error_only_Raise].
  destruct (Strptime.index_ci _ _ _); [|apply value_error_only_Raise].
  destruct (Calendar.valid_date _ _ _);
    auto using value_error_only_Ok, value_error_only_Raise.
Qed.

Lemma datetime_new_value_error t : value_error_only (datetime_new t).
Proof.
  destruct t as [[[[[y m] d] h] mi] s]. unfold datetime_new.
  destruct (_ && _); auto using value_error_only_Ok, value_error_only_Raise.
Qed.

Lemma datetime_strptime_value_error s fmt : value_error_only (datetime_strptime s fmt).
Proof.
  unfold datetime_strptime.
  apply value_error_only_bind; [apply _strptime_value_error|].
  apply datetime_new_value_error.
Qed.

(** [httpdate_to_datetime] lets no exception out, on text or on [None]. *)
Lemma httpdate_to_datetime_total (input_date : option string) :
  exists d, httpdate_to_datetime input_date = Ok d.
Proof.
  destruct input_date as [s|]; simpl; [|by eexists].
  pose proof (datetime_strptime_value_error s HTTPDATE_FORMAT) as Hv.
  destruct (datetime_strptime s HTTPDATE_FORMAT) as [d|e]; [by eexists|].
  rewrite (Hv e eq_refl). by eexists.
Qed.

(** [datetime_to_httpdate] lets no exception out either. *)
Lemma datetime_to_httpdate_total (input_date : option datetime) :
  exists s, datetime_to_httpdate input_date = Ok s.
Proof. destruct input_date; simpl; by eexists. Qed.

(** ** [touch] *)

Lemma where_uri_spec u r : Cache.where_uri u r = true <-> uri r = u.
Proof. unfold Cache.where_uri. apply String.eqb_eq. Qed.

Lemma where_uri_decide u r : Cache.where_uri u r = bool_decide (uri r = u).
Proof.
  destruct (Cache.where_uri u r) eqn:E.
  - symmetry. apply bool_decide_eq_true. by apply where_uri_spec.
  - symmetry. apply bool_decide_eq_false. intros Hu.
    apply where_uri_spec in Hu. congruence.
Qed.

Lemma find_none_map u (f : row -> row) (t : table) :
  List.find (Cache.where_uri u) t = None ->
  List.map (fun r => if Cache.where_uri u r then f r else r) t = t.
Proof.
  induction t as [|r t IH]; simpl; [done|].
  destruct (Cache.where_uri u r); [done|]. intros Hf. by rewrite IH.
Qed.

Lemma find_none_existsb u (t : table) :
  List.find (Cache.where_uri u) t = None -> existsb (Cache.where_uri u) t = false.
Proof.
  induction t as [|r t IH]; simpl; [done|].
  destruct (Cache.where_uri u r); [done|]. apply IH.
Qed.

(** The table after [touch]: the old one, or the old one with the five
    columns of the rows of that uri replaced. *)
Lemma touch_store u hs (t : table) :
  Cache.store_after (Cache.touch u hs t) t = t
  \/ exists d a ex lm ma,
       Cache.store_after (Cache.touch u hs t) t
       = List.map (fun r => if Cache.where_uri u r
                            then Cache.update_row d a ex lm ma r else r) t.
Proof.
  unfold Cache.touch.
  destruct (_parse_cache_control (h_cache_control hs)) as [m|]; simpl; [|by left].
  destruct (httpdate_to_datetime (h_date hs)) as [d|]; simpl; [|by left].
  destruct (httpdate_to_datetime (h_expires hs)) as [ex|]; simpl; [|by left].
  destruct (httpdate_to_datetime (h_last_modified hs)) as [lm|]; simpl; [|by left].
  unfold Cache.update_meta.
  destruct (negb _); simpl; [by left|].
  destruct d as [d|].
  - right. by exists d, (h_age hs), ex, lm, (Cache.directive_int (m !! "max-age")).
  - left. by destruct (existsb _ _).
Qed.

(** C5, as stated, fails: not every headers mapping is accepted in
    silence.  On a table without a row for the uri, a directive value
    that is no integer ends in [ValueError], and an age outside 64 bits
    in [OverflowError]. *)
Lemma touch_rejects_headers :
  Cache.touch "u" (mk_headers None (Some "max-age=soon") None None None None) []
  = Raise ValueError
  /\ Cache.touch "u" (mk_headers (Some "Wed, 21 Oct 2015 07:28:00 GMT") None
                                 (Some (2 ^ 70)) None None None) []
     = Raise OverflowError.
Proof. split; vm_compute; reflexivity. Qed.

(** C5, amended: [touch] changes at most [http_date], [age], [expires],
    [last_modified] and [max_age], whether it updates, is refused or
    raises: row by row, [uri], [blob], [etag] and [immutable] are what
    they were, and the rows of another uri are untouched; when the uri
    has no row the table is left as it was and no row is added, and the
    update is accepted without an error as soon as the directives parse
    and the integers fit 64 bits. *)
Theorem touch_frame (u : string) (hs : headers) (t : table) :
  Forall2 (fun r r' => uri r' = uri r /\ blob r' = blob r /\ etag r' = etag r
                       /\ immutable r' = immutable r /\ (uri r <> u -> r' = r))
          t (Cache.store_after (Cache.touch u hs t) t)
  /\ (List.find (Cache.where_uri u) t = None ->
      Cache.store_after (Cache.touch u hs t) t = t
      /\ forall directives,
           _parse_cache_control (h_cache_control hs) = Ok directives ->
           forallb Sqlite.int64
             (omap id [h_age hs; Cache.directive_int (directives !! "max-age")]) = true ->
           Cache.touch u hs t = Ok t).
Proof.
  split.
  - destruct (touch_store u hs t) as [->|(d & a & ex & lm & ma & ->)].
    + induction t; constructor; auto.
    + induction t as [|r t IH]; simpl; constructor; [|exact IH].
      rewrite where_uri_decide. case_bool_decide; simpl; [|done].
      repeat split; done.
  - intros Hnone. split.
    + destruct (touch_store u hs t) as [->|(d & a & ex & lm & ma & ->)]; [done|].
      by apply find_none_map.
    + intros directives Hparse Hfit. unfold Cache.touch. rewrite Hparse. simpl.
      destruct (httpdate_to_datetime_total (h_date hs)) as [d ->].
      destruct (httpdate_to_datetime_total (h_expires hs)) as [ex ->].
      destruct (httpdate_to_datetime_total (h_last_modified hs)) as [lm ->].
      simpl. unfold Cache.update_meta. rewrite Hfit. simpl.
      destruct d as [d|].
      * by rewrite find_none_map.
      * by rewrite find_none_existsb.
Qed.

Lemma touch_frame_witness :
  let hs := mk_headers (Some "Thu, 22 Oct 2015 07:28:00 GMT") (Some "max-age=5")
                       (Some 3) None None None in
  let ru := mk_row "u" (list_byte_of_string "v") (mk_datetime 2015 10 21 7 28 0 None)
                   (Some 1) (Some "e") None None (Some 60) (Some 1) in
  let rw := mk_row "w" (list_byte_of_string "x") (mk_datetime 2015 10 21 7 28 0 None)
                   None None None None None None in
  Forall2 (fun r r' => uri r' = uri r /\ blob r' = blob r /\ etag r' = etag r
                       /\ immutable r' = immutable r /\ (uri r <> "u" -> r' = r))
          [ru; rw] (Cache.store_after (Cache.touch "u" hs [ru; rw]) [ru; rw])
  /\ Cache.touch "u" hs [ru; rw]
     = Ok [mk_row "u" (list_byte_of_string "v") (mk_datetime 2015 10 22 7 28 0 None)
                  (Some 3) (Some "e") None None (Some 5) (Some 1); rw]
  /\ Cache.touch "v" hs [ru; rw] = Ok [ru; rw].
Proof.
  intros hs ru rw. split; [|split].
  - apply (proj1 (touch_frame "u" hs [ru; rw])).
  - vm_compute. reflexivity.
  - destruct (proj2 (touch_frame "v" hs [ru; rw])) as [_ Hok]; [reflexivity|].
    apply (Hok {[ "max-age" := DInt 5 ]}); reflexivity.
Defined.

(** C10, as stated, fails: without a date in the headers the UPDATE
    would set [http_date], which is NOT NULL, to NULL; the statement is
    refused and the row keeps all its values, [age] and [max_age]
    included. *)
Lemma touch_without_date_keeps_row :
  let r := mk_row "u" [] (mk_datetime 2015 10 21 7 28 0 None)
                  (Some 5) None None None (Some 60) None in
  let hs := mk_headers None None None None None None in
  Cache.store_after (Cache.touch "u" hs [r]) [r] = [r]
  /\ List.map http_date (Cache.store_after (Cache.touch "u" hs [r]) [r])
     = [mk_datetime 2015 10 21 7 28 0 None]
  /\ List.map age (Cache.store_after (Cache.touch "u" hs [r]) [r]) = [Some 5]
  /\ List.map max_age (Cache.store_after (Cache.touch "u" hs [r]) [r]) = [Some 60].
Proof. repeat split. Qed.

(** C10, amended: with a date in HTTP-date form in the headers, [touch]
    overwrites the five fields of the row of that uri from the headers,
    and [age], [expires], [last_modified] and [max_age] become absent
    when their key or directive is absent; with no date, or one that
    does not parse, the table is left as it was. *)
Theorem touch_overwrites (u : string) (hs : headers) (t : table) :
  (forall directives d,
     _parse_cache_control (h_cache_control hs) = Ok directives ->
     httpdate_to_datetime (h_date hs) = Ok (Some d) ->
     forallb Sqlite.int64
       (omap id [h_age hs; Cache.directive_int (directives !! "max-age")]) = true ->
     exists ex lm,
       httpdate_to_datetime (h_expires hs) = Ok ex
       /\ httpdate_to_datetime (h_last_modified hs) = Ok lm
       /\ (h_expires hs = None -> ex = None)
       /\ (h_last_modified hs = None -> lm = None)
       /\ (directives !! "max-age" = None -> Cache.directive_int (directives !! "max-age") = None)
       /\ Cache.touch u hs t
          = Ok (List.map
                  (fun r => if decide (uri r = u)
                            then mk_row (uri r) (blob r) d (h_age hs) (etag r) ex lm
                                        (Cache.directive_int (directives !! "max-age"))
                                        (immutable r)
                            else r) t))
  /\ (httpdate_to_datetime (h_date hs) = Ok None ->
      Cache.store_after (Cache.touch u hs t) t = t).
Proof.
  split.
  - intros directives d Hparse Hdate Hfit.
    destruct (httpdate_to_datetime_total (h_expires hs)) as [ex Hex].
    destruct (httpdate_to_datetime_total (h_last_modified hs)) as [lm Hlm].
    exists ex, lm. split; [done|]. split; [done|].
    split; [intros Hn; rewrite Hn in Hex; simpl in Hex; congruence|].
    split; [intros Hn; rewrite Hn in Hlm; simpl in Hlm; congruence|].
    split; [by intros ->|].
    unfold Cache.touch. rewrite Hparse, Hdate, Hex, Hlm. simpl.
    unfold Cache.update_meta. rewrite Hfit. simpl. f_equal.
    apply map_ext. intros r. rewrite where_uri_decide.
    unfold Cache.update_row. by case_bool_decide; case_decide.
  - intros Hdate. unfold Cache.touch.
    destruct (_parse_cache_control (h_cache_control hs)) as [m|]; simpl; [|done].
    rewrite Hdate. simpl.
    destruct (httpdate_to_datetime (h_expires hs)) as [ex|]; simpl; [|done].
    destruct (httpdate_to_datetime (h_last_modified hs)) as [lm|]; simpl; [|done].
    unfold Cache.update_meta. destruct (negb _); [done|].
    by destruct (existsb _ _).
Qed.

Lemma touch_overwrites_witness :
  let r := mk_row "u" [] (mk_datetime 2015 10 21 7 28 0 None)
                  (Some 5) (Some "v1") None None (Some 60) (Some 1) in
  let hs := mk_headers (Some "Thu, 22 Oct 2015 07:28:00 GMT") None None None None None in
  Cache.touch "u" hs [r]
  = Ok [mk_row "u" [] (mk_datetime 2015 10 22 7 28 0 None)
               None (Some "v1") None None None (Some 1)].
Proof.
  intros r hs.
  destruct (proj1 (touch_overwrites "u" hs [r]) ∅ (mk_datetime 2015 10 22 7 28 0 None))
    as (ex & lm & Hex & Hlm & _ & _ & _ & Htouch).
  - reflexivity.
  - vm_compute. reflexivity.
  - reflexivity.
  - rewrite Htouch. simpl in Hex, Hlm. injection Hex as <-. injection Hlm as <-.
    reflexivity.
Defined.

(** ** Stored timestamps as SQLite reads them *)

Lemma digit_cases k :
  0 <= k <= 9 ->
  k = 0 \/ k = 1 \/ k = 2 \/ k = 3 \/ k = 4 \/ k = 5 \/ k = 6 \/ k = 7 \/ k = 8 \/ k = 9.
Proof. lia. Qed.

Ltac each_digit k H :=
  destruct (digit_cases k H)
    as [-> | [-> | [-> | [-> | [-> | [-> | [-> | [-> | [-> | ->] ] ] ] ] ] ] ] ].

Lemma two_digit_char a b :
  0 <= a <= 9 -> 0 <= b <= 9 ->
  Sqlite.two (digit_char a) (digit_char b) = Some (10 * a + b).
Proof. intros Ha Hb. each_digit a Ha; each_digit b Hb; reflexivity. Qed.

Lemma leading_digits_digit_char k s acc :
  0 <= k <= 9 ->
  Sqlite.leading_digits (String (digit_char k) s) acc
  = Sqlite.leading_digits s (10 * acc + k).
Proof. intros Hk. each_digit k Hk; reflexivity. Qed.

Lemma leading_digits_dash s acc : Sqlite.leading_digits (String "-" s) acc = acc.
Proof. reflexivity. Qed.

Lemma int_prefix_digit_char k s :
  0 <= k <= 9 ->
  Sqlite.int_prefix (String (digit_char k) s) = Sqlite.leading_digits s k.
Proof. intros Hk. each_digit k Hk; reflexivity. Qed.

Lemma mod_10_digit n : 0 <= n mod 10 <= 9.
Proof. pose proof (Z.mod_pos_bound n 10). lia. Qed.

Lemma two_digits_value n : 0 <= n <= 99 -> 10 * ((n / 10) mod 10) + n mod 10 = n.
Proof. intros Hn. Z.div_mod_to_equations. lia. Qed.

Lemma four_digits_value n :
  0 <= n <= 9999 ->
  100 * (10 * ((n / 1000) mod 10) + (n / 100) mod 10)
  + (10 * ((n / 10) mod 10) + n mod 10) = n.
Proof. intros Hn. Z.div_mod_to_equations. lia. Qed.

Lemma four_digits_value_left n :
  0 <= n <= 9999 ->
  10 * (10 * (10 * ((n / 1000) mod 10) + (n / 100) mod 10) + (n / 10) mod 10)
  + n mod 10 = n.
Proof. intros Hn. Z.div_mod_to_equations. lia. Qed.

(** The ranges of the fields of a datetime that exists. *)
Lemma valid_datetime_bounds d :
  valid_datetime d = true ->
  1 <= year d <= 9999 /\ 1 <= month d <= 12 /\ 1 <= day d <= 31
  /\ 0 <= hour d <= 23 /\ 0 <= minute d <= 59 /\ 0 <= second d <= 59.
Proof.
  unfold valid_datetime, Calendar.valid_date, Calendar.valid_time.
  intros Hv.
  assert (Hd : Calendar.days_in_month (year d) (month d) <= 31).
  { unfold Calendar.days_in_month.
    repeat match goal with |- context [if ?b then _ else _] => destruct b end; lia. }
  lia.
Qed.

(** SQLite reads the fields back from the text that sqlite3 wrote. *)
Lemma parse_time_value_isoformat d :
  naive_valid d ->
  Sqlite.parse_time_value (isoformat d)
  = Some (year d, month d, day d, hour d, minute d, second d).
Proof.
  intros [Hv Hn]. apply valid_datetime_bounds in Hv.
  destruct d as [y m dd h mi s tz]. simpl in *. subst tz.
  destruct Hv as (Hy & Hm & Hd & Hh & Hmi & Hs).
  unfold Sqlite.parse_time_value, isoformat, pad4, pad2.
  cbn [year month day hour minute second dt_tzinfo].
  cbv [String.append list_ascii_of_string].
  change (("-" =? "-")%char) with true. change ((" " =? " ")%char) with true.
  change ((":" =? ":")%char) with true. cbn [andb orb].
  rewrite !two_digit_char by apply mod_10_digit.
  simpl.
  rewrite (four_digits_value y), !two_digits_value by lia.
  assert (Hc : (1 <=? m) && (m <=? 12) && (1 <=? dd) && (dd <=? 31) && (h <=? 24)
               && (mi <=? 59) && (s <=? 59) = true) by lia.
  by rewrite Hc.
Qed.

(** In arithmetic SQLite reads the year in the text of a timestamp. *)
Lemma int_prefix_isoformat d :
  naive_valid d -> Sqlite.int_prefix (isoformat d) = year d.
Proof.
  intros [Hv Hn]. apply valid_datetime_bounds in Hv.
  destruct d as [y m dd h mi s tz]. simpl in *. subst tz.
  destruct Hv as (Hy & _).
  unfold isoformat, pad4, pad2.
  cbn [year month day hour minute second dt_tzinfo].
  cbv [String.append].
  rewrite int_prefix_digit_char, !leading_digits_digit_char by apply mod_10_digit.
  rewrite leading_digits_dash.
  apply four_digits_value_left. lia.
Qed.

Lemma leading_digits_uint u acc :
  Sqlite.leading_digits (NilEmpty.string_of_uint u) acc = uint_value u acc.
Proof.
  revert acc. induction u as [|u IH|u IH|u IH|u IH|u IH|u IH|u IH|u IH|u IH|u IH];
    intros acc; [reflexivity|..];
    cbn [NilEmpty.string_of_uint Sqlite.leading_digits uint_value];
    match goal with
    | |- context [Str.isdigit ?c] =>
        change (Str.isdigit c) with true;
        let v := eval vm_compute in (Str.digit_value c) in
        change (Str.digit_value c) with v
    end;
    cbv iota; rewrite IH; f_equal; lia.
Qed.

Lemma of_uint_acc_value u acc :
  Z.pos (Pos.of_uint_acc u acc) = uint_value u (Z.pos acc).
Proof.
  revert acc. induction u; intros acc; simpl; try done; rewrite IHu; f_equal; lia.
Qed.

Lemma of_uint_value u : Z.of_N (Pos.of_uint u) = uint_value u 0.
Proof. induction u; simpl; try done; by rewrite ?of_uint_acc_value. Qed.

Lemma int_prefix_uint u :
  Sqlite.int_prefix (NilEmpty.string_of_uint u) = uint_value u 0.
Proof.
  destruct u; try reflexivity; unfold Sqlite.int_prefix; simpl;
    rewrite leading_digits_uint; reflexivity.
Qed.

(** The text of an integer is read back as that integer. *)
Lemma int_prefix_decimal z : Sqlite.int_prefix (Sqlite.decimal z) = z.
Proof.
  unfold Sqlite.decimal. destruct z as [|p|p]; simpl.
  - reflexivity.
  - rewrite int_prefix_uint, <- of_uint_value.
    by rewrite DecimalPos.Unsigned.of_to.
  - unfold Sqlite.int_prefix. simpl.
    rewrite leading_digits_uint, <- of_uint_value.
    by rewrite DecimalPos.Unsigned.of_to.
Qed.

(** [strftime('%s', now) - strftime('%s', http_date)] is the number of
    seconds between the two. *)
Lemma current_age_seconds now d :
  naive_valid now -> naive_valid d ->
  Sqlite.sub (Sqlite.strftime_s (Sqlite.Text (isoformat now)))
             (Sqlite.strftime_s (Sqlite.Text (isoformat d)))
  = Sqlite.Integer (seconds_of now - seconds_of d).
Proof.
  intros Hnow Hd. unfold Sqlite.strftime_s.
  rewrite !parse_time_value_isoformat by done.
  unfold Sqlite.sub, Sqlite.numeric, seconds_of. by rewrite !int_prefix_decimal.
Qed.

Lemma truth_timestamp d : naive_valid d -> Sqlite.truth (Sqlite.Text (isoformat d)) = true.
Proof.
  intros Hd. unfold Sqlite.truth, Sqlite.numeric. rewrite int_prefix_isoformat by done.
  destruct Hd as [Hv _]. apply valid_datetime_bounds in Hv.
  destruct (Z.eqb_spec (year d) 0); [lia|done].
Qed.

(** The dates that [httpdate_to_datetime] returns exist and are naive. *)
Lemma httpdate_to_datetime_naive_valid s d :
  httpdate_to_datetime s = Ok (Some d) -> naive_valid d.
Proof.
  destruct s as [s|]; simpl; [|done].
  assert (Hnew : forall t d, datetime_new t = Ok d -> naive_valid d).
  { intros [[[[[y m] dd] h] mi] se] d'. unfold datetime_new.
    destruct (_ && _) eqn:E; [|done]. intros [= <-]. by split. }
  unfold datetime_strptime, time_strptime.
  destruct (Strptime._strptime s HTTPDATE_FORMAT) as [t|e]; simpl.
  - destruct (datetime_new t) as [d'|e] eqn:E; simpl.
    + intros [= <-]. by eapply Hnew.
    + by destruct e.
  - by destruct e.
Qed.

Lemma sub_timestamps a b :
  naive_valid a -> naive_valid b ->
  Sqlite.sub (Sqlite.Text (isoformat a)) (Sqlite.Text (isoformat b))
  = Sqlite.Integer (year a - year b).
Proof.
  intros Ha Hb. unfold Sqlite.sub, Sqlite.numeric.
  by rewrite !int_prefix_isoformat.
Qed.

Lemma ge_integers l c :
  Sqlite.ge (Sqlite.Integer l) (Sqlite.Integer c)
  = Sqlite.Integer (if c <=? l then 1 else 0).
Proof.
  unfold Sqlite.ge, Sqlite.compare.
  destruct (Z.compare_spec l c), (Z.leb_spec c l); try done; lia.
Qed.

(** *** The order of the stored texts *)



Lemma four_digits n :
  0 <= n <= 9999 ->
  exists a b c d, 0 <= a <= 9 /\ 0 <= b <= 9 /\ 0 <= c <= 9 /\ 0 <= d <= 9
    /\ n = 1000 * a + 100 * b + 10 * c + d
    /\ pad4 n = String (digit_char a) (String (digit_char b)
                  (String (digit_char c) (String (digit_char d) EmptyString))).
Proof.
  intros Hn. exists ((n / 1000) mod 10), ((n / 100) mod 10), ((n / 10) mod 10), (n mod 10).
  repeat (split; [apply mod_10_digit|]). split; [|reflexivity].
  Z.div_mod_to_equations. lia.
Qed.

Lemma two_digits n :
  0 <= n <= 99 ->
  exists a b, 0 <= a <= 9 /\ 0 <= b <= 9 /\ n = 10 * a + b
    /\ pad2 n = String (digit_char a) (String (digit_char b) EmptyString).
Proof.
  intros Hn. exists ((n / 10) mod 10), (n mod 10).
  repeat (split; [apply mod_10_digit|]). split; [|reflexivity].
  Z.div_mod_to_equations. lia.
Qed.



(** ** The codec on datetimes in GMT

    The text that [strftime] prints for a datetime with the zone GMT is
    matched by the regular expression of [strptime], field by field. *)

Section HttpdateRoundtrip.
Import Re.

Lemma length_append pre rest :
  String.length (pre +:+ rest) = (String.length pre + String.length rest)%nat.
Proof. induction pre as [|c pre IH]; [done|]. rewrite append_cons. simpl. by rewrite IH. Qed.

Lemma substring_prefix pre rest : substring 0 (String.length pre) (pre +:+ rest) = pre.
Proof.
  induction pre as [|c pre IH]; [by destruct rest|].
  rewrite append_cons. simpl. by rewrite IH.
Qed.

Lemma consumed_app pre rest : consumed (pre +:+ rest) rest = pre.
Proof.
  unfold consumed. rewrite length_append.
  replace (String.length pre + String.length rest - String.length rest)%nat
    with (String.length pre) by lia.
  apply substring_prefix.
Qed.

Lemma run_group name r s caps {A} (k : string -> captures -> option A) :
  run (Group name r) s caps k
  = run r s caps (fun s' caps' => k s' ((name, consumed s s') :: caps')).
Proof. reflexivity. Qed.

Lemma run_cat r1 r2 s caps {A} (k : string -> captures -> option A) :
  run (Cat r1 r2) s caps k = run r1 s caps (fun s' caps' => run r2 s' caps' k).
Proof. reflexivity. Qed.

Lemma run_day_abbr i rest caps {A} (k : string -> captures -> option A) :
  (i < 7)%nat ->
  run (any_of Calendar.day_abbr) (nth i Calendar.day_abbr EmptyString +:+ rest) caps k
  = k rest caps.
Proof.
  intros Hi. do 7 (destruct i as [|i]; [cbv; by destruct (k rest caps)|]). lia.
Qed.

Lemma run_month_abbr i rest caps {A} (k : string -> captures -> option A) :
  (i < 12)%nat ->
  run (any_of Calendar.month_abbr) (nth i Calendar.month_abbr EmptyString +:+ rest) caps k
  = k rest caps.
Proof.
  intros Hi. do 12 (destruct i as [|i]; [cbv; by destruct (k rest caps)|]). lia.
Qed.

Lemma run_spaces c rest caps {A} (k : string -> captures -> option A) :
  Str.isspace c = false ->
  run Spaces (String " " (String c rest)) caps k = k (String c rest) caps.
Proof.
  intros Hc. cbn [run spaces]. change (Str.isspace " ") with true. cbv iota.
  by rewrite Hc.
Qed.

Lemma isspace_digit_char a : 0 <= a <= 9 -> Str.isspace (digit_char a) = false.
Proof. intros Ha. each_digit a Ha; reflexivity. Qed.

Lemma run_digit a rest caps {A} (k : string -> captures -> option A) :
  0 <= a <= 9 ->
  run digit (String (digit_char a) rest) caps k = k rest caps.
Proof. intros Ha. each_digit a Ha; reflexivity. Qed.

(* the body of %d on a day printed on two digits; the continuation
   does not accept a text that starts with the second digit *)
Lemma run_day a b rest caps {A} (k : string -> captures -> option A) :
  0 <= a <= 9 -> 0 <= b <= 9 -> 1 <= 10 * a + b <= 31 ->
  (forall caps', k (String (digit_char b) rest) caps' = None) ->
  run (Or (Cat (Lit "3") (range "0" "1"))
      (Or (Cat (range "1" "2") digit)
      (Or (Cat (Lit "0") (range "1" "9"))
      (Or (range "1" "9")
          (Cat (Lit " ") (range "1" "9"))))))
      (String (digit_char a) (String (digit_char b) rest)) caps k
  = k rest caps.
Proof.
  intros Ha Hb Hn Hk. each_digit a Ha; each_digit b Hb; try lia;
    cbv in Hk |- *; rewrite ?Hk; by destruct (k rest caps).
Qed.

Lemma run_hour a b rest caps {A} (k : string -> captures -> option A) :
  0 <= a <= 9 -> 0 <= b <= 9 -> 0 <= 10 * a + b <= 23 ->
  (forall caps', k (String (digit_char b) rest) caps' = None) ->
  run (Or (Cat (Lit "2") (range "0" "3")) (Or (Cat (range "0" "1") digit) digit))
      (String (digit_char a) (String (digit_char b) rest)) caps k
  = k rest caps.
Proof.
  intros Ha Hb Hn Hk. each_digit a Ha; each_digit b Hb; try lia;
    cbv in Hk |- *; rewrite ?Hk; by destruct (k rest caps).
Qed.

Lemma run_minute a b rest caps {A} (k : string -> captures -> option A) :
  0 <= a <= 9 -> 0 <= b <= 9 -> 0 <= 10 * a + b <= 59 ->
  (forall caps', k (String (digit_char b) rest) caps' = None) ->
  run (Or (Cat (range "0" "5") digit) digit)
      (String (digit_char a) (String (digit_char b) rest)) caps k
  = k rest caps.
Proof.
  intros Ha Hb Hn Hk. each_digit a Ha; each_digit b Hb; try lia;
    cbv in Hk |- *; rewrite ?Hk; by destruct (k rest caps).
Qed.

Lemma run_second a b rest caps {A} (k : string -> captures -> option A) :
  0 <= a <= 9 -> 0 <= b <= 9 -> 0 <= 10 * a + b <= 59 ->
  (forall caps', k (String (digit_char b) rest) caps' = None) ->
  run (Or (Cat (Lit "6") (range "0" "1")) (Or (Cat (range "0" "5") digit) digit))
      (String (digit_char a) (String (digit_char b) rest)) caps k
  = k rest caps.
Proof.
  intros Ha Hb Hn Hk. each_digit a Ha; each_digit b Hb; try lia;
    cbv in Hk |- *; rewrite ?Hk; by destruct (k rest caps).
Qed.

Lemma run_lit c rest caps {A} (k : string -> captures -> option A) :
  run (Lit c) (String c rest) caps k = k rest caps.
Proof. cbn [run]. unfold ci_eqb. by rewrite Ascii.eqb_refl. Qed.

Lemma colon_digit_char a : 0 <= a <= 9 -> ci_eqb ":" (digit_char a) = false.
Proof. intros Ha. each_digit a Ha; reflexivity. Qed.

Lemma run_spaces_digit a rest caps {A} (k : string -> captures -> option A) :
  0 <= a <= 9 -> run Spaces (String (digit_char a) rest) caps k = None.
Proof. intros Ha. cbn [run spaces]. by rewrite isspace_digit_char. Qed.

Lemma run_colon_digit a rest caps {A} (k : string -> captures -> option A) :
  0 <= a <= 9 -> run (Lit ":") (String (digit_char a) rest) caps k = None.
Proof. intros Ha. cbn [run]. by rewrite colon_digit_char. Qed.

Lemma run_spaces_month i rest caps {A} (k : string -> captures -> option A) :
  (i < 12)%nat ->
  run Spaces (String " " (nth i Calendar.month_abbr EmptyString +:+ rest)) caps k
  = k (nth i Calendar.month_abbr EmptyString +:+ rest) caps.
Proof.
  intros Hi. do 12 (destruct i as [|i]; [apply run_spaces; reflexivity|]). lia.
Qed.

Lemma consumed2 a b rest : consumed (String a (String b rest)) rest = String a (String b EmptyString).
Proof. apply (consumed_app (String a (String b EmptyString))). Qed.

Lemma consumed4 a b c d rest :
  consumed (String a (String b (String c (String d rest)))) rest
  = String a (String b (String c (String d EmptyString))).
Proof. apply (consumed_app (String a (String b (String c (String d EmptyString))))). Qed.

Lemma int_two_digits a b :
  0 <= a <= 9 -> 0 <= b <= 9 ->
  Str.int (String (digit_char a) (String (digit_char b) EmptyString)) = Ok (10 * a + b).
Proof. intros Ha Hb. each_digit a Ha; each_digit b Hb; reflexivity. Qed.

Lemma digits_digit_char a s acc count prev :
  0 <= a <= 9 ->
  Str.digits (String (digit_char a) s) acc count prev
  = Str.digits s (10 * acc + a) (count + 1) true.
Proof. intros Ha. each_digit a Ha; reflexivity. Qed.

Lemma rstrip_cons c s :
  Str.isspace c = false -> Str.rstrip (String c s) = String c (Str.rstrip s).
Proof. intros Hc. cbn [Str.rstrip]. destruct (Str.rstrip s); by rewrite ?Hc. Qed.

Lemma isdigit_digit_char a : 0 <= a <= 9 -> Str.isdigit (digit_char a) = true.
Proof. intros Ha. each_digit a Ha; reflexivity. Qed.

(** [int] on a text that starts with a digit. *)
Lemma int_leading_digit c s n count :
  Str.isdigit c = true ->
  Str.digits (String c s) 0 0 false = Some (n, count) ->
  count <= Str.int_max_str_digits ->
  Str.int (String c s) = Ok n.
Proof.
  intros Hc Hdig Hcount. unfold Str.int.
  assert (Hsk : Str.int_skip (String c s) = String c s).
  { destruct c as [[] [] [] [] [] [] [] []]; try discriminate Hc; reflexivity. }
  rewrite Hsk. unfold Str.int_unsigned.
  destruct c as [[] [] [] [] [] [] [] []]; try discriminate Hc;
    rewrite Hdig; by destruct (Z.leb_spec count Str.int_max_str_digits); [|lia].
Qed.

Lemma int_four_digits a b c d :
  0 <= a <= 9 -> 0 <= b <= 9 -> 0 <= c <= 9 -> 0 <= d <= 9 ->
  Str.int (String (digit_char a) (String (digit_char b)
            (String (digit_char c) (String (digit_char d) EmptyString))))
  = Ok (1000 * a + 100 * b + 10 * c + d).
Proof.
  intros Ha Hb Hc Hd. apply int_leading_digit with (count := 4).
  - by apply isdigit_digit_char.
  - rewrite !digits_digit_char by done. cbn [Str.digits]. do 2 f_equal. lia.
  - done.
Qed.

Lemma index_month i :
  (i < 12)%nat ->
  Strptime.index_ci Calendar.month_abbr (nth i Calendar.month_abbr EmptyString) 1
  = Some (Z.of_nat i + 1).
Proof. intros Hi. do 12 (destruct i as [|i]; [reflexivity|]). lia. Qed.

Lemma pattern_httpdate :
  Strptime.pattern HTTPDATE_FORMAT false
  = Ok (Cat (Group "a" (any_of Calendar.day_abbr))
       (Cat (Lit ",")
       (Cat Spaces
       (Cat (Group "d" (Or (Cat (Lit "3") (range "0" "1"))
                       (Or (Cat (range "1" "2") digit)
                       (Or (Cat (Lit "0") (range "1" "9"))
                       (Or (range "1" "9")
                           (Cat (Lit " ") (range "1" "9")))))))
       (Cat Spaces
       (Cat (Group "b" (any_of Calendar.month_abbr))
       (Cat Spaces
       (Cat (Group "Y" (Cat digit (Cat digit (Cat digit digit))))
       (Cat Spaces
       (Cat (Group "H" (Or (Cat (Lit "2") (range "0" "3"))
                       (Or (Cat (range "0" "1") digit) digit)))
       (Cat (Lit ":")
       (Cat (Group "M" (Or (Cat (range "0" "5") digit) digit))
       (Cat (Lit ":")
       (Cat (Group "S" (Or (Cat (Lit "6") (range "0" "1"))
                       (Or (Cat (range "0" "5") digit) digit)))
       (Cat Spaces
       (Cat (Group "Z" (any_of ["gmt"; "utc"])) Eps)))))))))))))))).
Proof. reflexivity. Qed.

Lemma matches_httpdate i j a1 a2 y1 y2 y3 y4 h1 h2 m1 m2 s1 s2 :
  (i < 7)%nat -> (j < 12)%nat ->
  0 <= a1 <= 9 -> 0 <= a2 <= 9 -> 1 <= 10 * a1 + a2 <= 31 ->
  0 <= y1 <= 9 -> 0 <= y2 <= 9 -> 0 <= y3 <= 9 -> 0 <= y4 <= 9 ->
  0 <= h1 <= 9 -> 0 <= h2 <= 9 -> 0 <= 10 * h1 + h2 <= 23 ->
  0 <= m1 <= 9 -> 0 <= m2 <= 9 -> 0 <= 10 * m1 + m2 <= 59 ->
  0 <= s1 <= 9 -> 0 <= s2 <= 9 -> 0 <= 10 * s1 + s2 <= 59 ->
  forall r, Strptime.pattern HTTPDATE_FORMAT false = Ok r ->
  matches r
    (nth i Calendar.day_abbr EmptyString +:+ (String "," (String " " (String
    (digit_char a1) (String (digit_char a2) (String " " (nth j
    Calendar.month_abbr EmptyString +:+ (String " " (String (digit_char y1)
    (String (digit_char y2) (String (digit_char y3) (String (digit_char y4)
    (String " " (String (digit_char h1) (String (digit_char h2) (String ":"
    (String (digit_char m1) (String (digit_char m2) (String ":" (String
    (digit_char s1) (String (digit_char s2) (String " "
    "GMT"))))))))))))))))))))))
  = Some (EmptyString,
          [("Z"%char, "GMT");
           ("S"%char, String (digit_char s1) (String (digit_char s2) EmptyString));
           ("M"%char, String (digit_char m1) (String (digit_char m2) EmptyString));
           ("H"%char, String (digit_char h1) (String (digit_char h2) EmptyString));
           ("Y"%char, String (digit_char y1) (String (digit_char y2)
                        (String (digit_char y3) (String (digit_char y4) EmptyString))));
           ("b"%char, nth j Calendar.month_abbr EmptyString);
           ("d"%char, String (digit_char a1) (String (digit_char a2) EmptyString));
           ("a"%char, nth i Calendar.day_abbr EmptyString)]).
Proof.
  intros Hi Hj Ha1 Ha2 Hd Hy1 Hy2 Hy3 Hy4 Hh1 Hh2 Hh Hm1 Hm2 Hm Hs1 Hs2 Hs r Hr.
  rewrite pattern_httpdate in Hr. injection Hr as <-.
  unfold matches.
  rewrite run_cat, run_group, run_day_abbr by done. rewrite consumed_app.
  rewrite run_cat, run_lit.
  rewrite run_cat, run_spaces by (by apply isspace_digit_char).
  rewrite run_cat, run_group.
  rewrite run_day; [|done..|].
  2:{ intros caps'. rewrite run_cat. by apply run_spaces_digit. }
  rewrite consumed2.
  rewrite run_cat, run_spaces_month by done.
  rewrite run_cat, run_group, run_month_abbr by done. rewrite consumed_app.
  rewrite run_cat, run_spaces by (by apply isspace_digit_char).
  rewrite run_cat, run_group.
  do 3 (rewrite run_cat, run_digit by done; cbv beta).
  rewrite run_digit by done. rewrite consumed4.
  rewrite run_cat, run_spaces by (by apply isspace_digit_char).
  rewrite run_cat, run_group.
  rewrite run_hour; [|done..|].
  2:{ intros caps'. rewrite run_cat. by apply run_colon_digit. }
  rewrite consumed2.
  rewrite run_cat, run_lit.
  rewrite run_cat, run_group.
  rewrite run_minute; [|done..|].
  2:{ intros caps'. rewrite run_cat. by apply run_colon_digit. }
  rewrite consumed2.
  rewrite run_cat, run_lit.
  rewrite run_cat, run_group.
  rewrite run_second; [|done..|].
  2:{ intros caps'. rewrite run_cat. by apply run_spaces_digit. }
  rewrite consumed2.
  rewrite run_cat, run_spaces by reflexivity.
  rewrite run_cat, run_group.
  reflexivity.
Qed.

Lemma weekday_index y m d : (Z.to_nat (Calendar.weekday y m d) < 7)%nat.
Proof. unfold Calendar.weekday. pose proof (Z.mod_pos_bound (Calendar.toordinal y m d + 6) 7). lia. Qed.

(** The text printed for a datetime in GMT is read back as that date. *)
Lemma strptime_strftime d :
  valid_datetime d = true -> dt_tzinfo d = Some GMT ->
  Strptime._strptime (strftime_text d HTTPDATE_FORMAT) HTTPDATE_FORMAT
  = Ok (year d, month d, day d, hour d, minute d, second d).
Proof.
  intros Hv Htz. pose proof (valid_datetime_bounds d Hv) as Hb.
  assert (Hdate : Calendar.valid_date (year d) (month d) (day d) = true).
  { unfold valid_datetime in Hv. by apply andb_true_iff in Hv as [-> _]. }
  destruct d as [y m dd h mi s tz].
  cbn [year month day hour minute second dt_tzinfo] in *. subst tz. clear Hv.
  destruct Hb as (Hy & Hm & Hd & Hh & Hmi & Hs).
  unfold Strptime._strptime.
  destruct (Strptime.pattern HTTPDATE_FORMAT false) as [r|e] eqn:Hr;
    [|by rewrite pattern_httpdate in Hr].
  cbn [mbind result_bind].
  assert (Htext :
    strftime_text (mk_datetime y m dd h mi s (Some GMT)) HTTPDATE_FORMAT
    = nth (Z.to_nat (Calendar.weekday y m dd)) Calendar.day_abbr EmptyString
      +:+ String "," (String " " (pad2 dd +:+ String " "
      (nth (Z.to_nat (m - 1)) Calendar.month_abbr EmptyString +:+ String " "
      (pad4 y +:+ String " " (pad2 h +:+ String ":" (pad2 mi +:+ String ":"
      (pad2 s +:+ String " " ("GMT" +:+ EmptyString)))))))))
    by reflexivity.
  rewrite Htext. clear Htext.
  destruct (four_digits y) as (y1 & y2 & y3 & y4 & ? & ? & ? & ? & Ey & ->); [lia|].
  destruct (two_digits dd) as (a1 & a2 & ? & ? & Edd & ->); [lia|].
  destruct (two_digits h) as (h1 & h2 & ? & ? & Eh & ->); [lia|].
  destruct (two_digits mi) as (m1 & m2 & ? & ? & Emi & ->); [lia|].
  destruct (two_digits s) as (s1 & s2 & ? & ? & Es & ->); [lia|].
  rewrite !append_cons, !append_nil_l.
  rewrite (matches_httpdate (Z.to_nat (Calendar.weekday y m dd)) (Z.to_nat (m - 1))
             a1 a2 y1 y2 y3 y4 h1 h2 m1 m2 s1 s2) by (done || lia || apply weekday_index).
  match goal with
  | |- context [Strptime.field ?caps _] => set (caps0 := caps)
  end.
  change (Strptime.field caps0 "Y")
    with (Str.int (String (digit_char y1) (String (digit_char y2)
                    (String (digit_char y3) (String (digit_char y4) EmptyString))))).
  change (Strptime.field caps0 "d")
    with (Str.int (String (digit_char a1) (String (digit_char a2) EmptyString))).
  change (Strptime.field caps0 "H")
    with (Str.int (String (digit_char h1) (String (digit_char h2) EmptyString))).
  change (Strptime.field caps0 "M")
    with (Str.int (String (digit_char m1) (String (digit_char m2) EmptyString))).
  change (Strptime.field caps0 "S")
    with (Str.int (String (digit_char s1) (String (digit_char s2) EmptyString))).
  change (group caps0 "b")
    with (Some (nth (Z.to_nat (m - 1)) Calendar.month_abbr EmptyString)).
  rewrite int_four_digits, !int_two_digits by done.
  cbn [mbind result_bind].
  rewrite index_month by lia.
  replace (Z.of_nat (Z.to_nat (m - 1)) + 1) with m by lia.
  rewrite <- Ey, <- Edd. rewrite Hdate.
  by rewrite Eh, Emi, Es.
Qed.

(** The codec on datetimes in GMT: the printed text is read back as the
    same date and time, without the zone. *)
Lemma httpdate_roundtrip d :
  valid_datetime d = true -> dt_tzinfo d = Some GMT ->
  exists s,
    datetime_to_httpdate (Some d) = Ok (Some s)
    /\ httpdate_to_datetime (Some s)
       = Ok (Some (mk_datetime (year d) (month d) (day d)
                               (hour d) (minute d) (second d) None)).
Proof.
  intros Hv Htz. exists (strftime_text d HTTPDATE_FORMAT). split; [reflexivity|].
  unfold httpdate_to_datetime, datetime_strptime.
  rewrite strptime_strftime by done. cbn [mbind result_bind].
  unfold datetime_new. unfold valid_datetime in Hv. by rewrite Hv.
Qed.

End HttpdateRoundtrip.

(** ** [get] and [set] *)

Lemma ge_cases a b :
  Sqlite.ge a b = Sqlite.Null \/ Sqlite.ge a b = Sqlite.Integer 0
  \/ Sqlite.ge a b = Sqlite.Integer 1.
Proof.
  unfold Sqlite.ge.
  destruct a, b; auto; destruct (Sqlite.compare _ _); auto.
Qed.

(** The flag is 1, 0 or NULL. *)
Lemma fresh_cases (r : row) now :
  Cache.fresh r now = Sqlite.Null \/ Cache.fresh r now = Sqlite.Integer 0
  \/ Cache.fresh r now = Sqlite.Integer 1.
Proof. unfold Cache.fresh. apply ge_cases. Qed.

(** With a [max_age] that is not zero and no [age], the scalar [max]
    is NULL and so is the flag, at every time. *)
Lemma fresh_null_without_age (r : row) now m :
  max_age r = Some m -> m <> 0 -> age r = None -> Cache.fresh r now = Sqlite.Null.
Proof.
  intros Hm Hne Ha. unfold Cache.fresh. rewrite Hm, Ha. simpl.
  unfold Sqlite.truth. simpl. by destruct (Z.eqb_spec m 0).
Qed.

(** With both, the left side of the comparison is the greater of the
    two. *)
Lemma fresh_max_age (r : row) now a m :
  age r = Some a -> max_age r = Some m -> m <> 0 ->
  Cache.fresh r now
  = Sqlite.ge (Sqlite.Integer (Z.max a m))
      (Sqlite.sub (Sqlite.strftime_s (Sqlite.Text (isoformat now)))
                  (Sqlite.strftime_s (Sqlite.Text (isoformat (http_date r))))).
Proof.
  intros Ha Hm Hne. unfold Cache.fresh. rewrite Hm, Ha. simpl.
  unfold Sqlite.truth. simpl. destruct (Z.eqb_spec m 0) as [|_]; [done|]. simpl.
  f_equal. unfold Z.max. by destruct (a ?= m).
Qed.

(** The flag for a row with valid timestamps: the lifetime compared
    with the seconds since [http_date]. *)
Lemma fresh_formula (r : row) now :
  valid_row r -> naive_valid now ->
  Cache.fresh r now
  = match lifetime r now with
    | Some l =>
        Sqlite.Integer (if seconds_of now - seconds_of (http_date r) <=? l then 1 else 0)
    | None => Sqlite.Null
    end.
Proof.
  intros (Hd & He & Hlm) Hnow. unfold Cache.fresh, lifetime.
  change (sql_timestamp (Some (http_date r)))
    with (Sqlite.Text (isoformat (http_date r))).
  rewrite current_age_seconds by done.
  assert (Helse :
    Sqlite.ge
      (if Sqlite.truth (sql_timestamp (expires r))
       then Sqlite.sub (sql_timestamp (expires r)) (Sqlite.Text (isoformat (http_date r)))
       else Sqlite.cast_int
              (Sqlite.div (Sqlite.sub (Sqlite.Text (isoformat now))
                                      (sql_timestamp (last_modified r)))
                          (Sqlite.Integer 10)))
      (Sqlite.Integer (seconds_of now - seconds_of (http_date r)))
    = match match expires r with
            | Some e => Some (year e - year (http_date r))
            | None => (fun lm => Z.quot (year now - year lm) 10) <$> last_modified r
            end with
      | Some l =>
          Sqlite.Integer (if seconds_of now - seconds_of (http_date r) <=? l then 1 else 0)
      | None => Sqlite.Null
      end).
  { destruct (expires r) as [e|] eqn:Ee.
    - unfold sql_timestamp. rewrite truth_timestamp by auto.
      rewrite sub_timestamps by auto. apply ge_integers.
    - change (Sqlite.truth (sql_timestamp None)) with false. cbv iota.
      destruct (last_modified r) as [lm|] eqn:El; [|reflexivity].
      unfold sql_timestamp. rewrite sub_timestamps by auto.
      unfold Sqlite.div, Sqlite.cast_int, Sqlite.numeric. simpl.
      apply ge_integers. }
  destruct (max_age r) as [m|]; [|exact Helse].
  unfold sql_int at 1. unfold Sqlite.truth, Sqlite.numeric.
  destruct (Z.eqb_spec m 0) as [->|Hm]; [exact Helse|]. cbn [negb].
  destruct (age r) as [a|]; [|reflexivity].
  cbn [sql_int fmap option_fmap option_map Sqlite.max Sqlite.compare].
  replace (match a ?= m with Lt => Sqlite.Integer m | _ => Sqlite.Integer a end)
    with (Sqlite.Integer (Z.max a m)) by (unfold Z.max; by destruct (a ?= m)).
  apply ge_integers.
Qed.

(** With an [age] and a [max_age] that is not zero, the row is fresh
    exactly while [max(age, max_age)] covers the seconds since
    [http_date]. *)
Lemma fresh_with_age (r : row) now a m :
  valid_row r -> naive_valid now ->
  age r = Some a -> max_age r = Some m -> m <> 0 ->
  Cache.fresh r now = Sqlite.Integer 1
  <-> seconds_of now - seconds_of (http_date r) <= Z.max a m.
Proof.
  intros Hr Hnow Ha Hm Hne. rewrite fresh_formula by done.
  unfold lifetime. rewrite Hm, Ha. destruct (Z.eqb_spec m 0); [done|]. simpl.
  destruct (Z.leb_spec (seconds_of now - seconds_of (http_date r)) (Z.max a m));
    split; intros; try done; lia.
Qed.

(** The lifetime under [expires] is counted in years: a response that
    expires in an hour is stale after one second. *)
Example fresh_expires_in_an_hour :
  let r := mk_row "u" [] (mk_datetime 2015 10 21 7 28 0 None) None None
                  (Some (mk_datetime 2015 10 21 8 28 0 None)) None None None in
  lifetime r (mk_datetime 2015 10 21 7 28 1 None) = Some 0
  /\ Cache.fresh r (mk_datetime 2015 10 21 7 28 1 None) = Sqlite.Integer 0.
Proof. split; vm_compute; reflexivity. Qed.

(** A [max_age] of zero is skipped by [WHEN max_age]. *)
Example fresh_max_age_zero :
  let r := mk_row "u" [] (mk_datetime 2015 10 21 7 28 0 None) (Some 100) None
                  None None (Some 0) None in
  Cache.fresh r (mk_datetime 2015 10 21 7 28 1 None) = Sqlite.Null.
Proof. vm_compute. reflexivity. Qed.

Lemma get_found `{Pickle payload} u now (t : table) r v :
  List.find (Cache.where_uri u) t = Some r ->
  loads (blob r) = Ok v ->
  Cache.get u now t
  = Ok (Some (<["blob" := PObj v]>
             (<["last_modified" := Cache.py_datetime (last_modified r)]>
             (<["etag" := Cache.py_str (etag r)]>
             (<["immutable" := Cache.py_int (immutable r)]>
             (<["fresh" := Cache.py_of_sql (Cache.fresh r now)]> ∅)))))).
Proof.
  intros Hf Hl. unfold Cache.get. simpl. rewrite Hf.
  unfold Cache.get_row, Cache.deserialise. rewrite Hl. reflexivity.
Qed.

(** C6, as stated, fails: the SELECT of [get] names four columns and
    the flag; the row it returns has no [uri], [http_date], [age],
    [expires] or [max_age]. *)
Lemma get_row_lacks_columns :
  let r := mk_row "u" (list_byte_of_string "v") (mk_datetime 2015 10 21 7 28 0 None)
                  (Some 0) None None None (Some 60) None in
  exists R : Row string,
    Cache.get "u" (mk_datetime 2015 10 21 7 28 30 None) [r] = Ok (Some R)
    /\ R !! "uri" = None /\ R !! "http_date" = None /\ R !! "age" = None
    /\ R !! "expires" = None /\ R !! "max_age" = None.
Proof. eexists. split; [reflexivity|]. repeat split. Qed.

(** C6, amended: for a uri with a stored row, [get] returns a partial
    entry: the decoded payload under [blob], the [last_modified],
    [etag] and [immutable] of the row, and a flag [fresh] that is 1, 0
    or [None]; it has no other field.  For a uri without a row it
    returns [None]. *)
Theorem get_partial_entry `{Pickle payload} (u : string) (now : datetime) (t : table) :
  match List.find (Cache.where_uri u) t with
  | None => Cache.get u now t = Ok None
  | Some r =>
      uri r = u /\ In r t
      /\ forall v, loads (blob r) = Ok v ->
         exists R : Row payload,
           Cache.get u now t = Ok (Some R)
           /\ R !! "blob" = Some (PObj v)
           /\ R !! "last_modified" = Some (Cache.py_datetime (last_modified r))
           /\ R !! "etag" = Some (Cache.py_str (etag r))
           /\ R !! "immutable" = Some (Cache.py_int (immutable r))
           /\ (R !! "fresh" = Some (PInt 1) \/ R !! "fresh" = Some (PInt 0)
               \/ R !! "fresh" = Some PNone)
           /\ forall k, is_Some (R !! k) ->
                In k ["blob"; "last_modified"; "etag"; "immutable"; "fresh"]
  end.
Proof.
  destruct (List.find (Cache.where_uri u) t) as [r|] eqn:Hf.
  - apply find_some in Hf as Hr. destruct Hr as [Hin Hu].
    apply where_uri_spec in Hu. split; [done|]. split; [done|].
    intros v Hl. eexists. split; [by apply get_found|].
    repeat split.
    + rewrite !lookup_insert_ne by done. rewrite lookup_insert_eq.
      destruct (fresh_cases r now) as [-> | [-> | ->] ]; simpl; auto.
    + intros k [x Hk].
      repeat (rewrite lookup_insert in Hk; case_decide; [subst k; simpl; tauto|]).
      by rewrite lookup_empty in Hk.
  - by apply get_no_row.
Qed.

Lemma get_partial_entry_witness :
  let r := mk_row "u" (list_byte_of_string "v") (mk_datetime 2015 10 21 7 28 0 None)
                  (Some 0) None None None (Some 60) None in
  exists R : Row string,
    Cache.get "u" (mk_datetime 2015 10 21 7 28 30 None) [r] = Ok (Some R)
    /\ R !! "blob" = Some (PObj "v") /\ R !! "fresh" = Some (PInt 1).
Proof.
  intros r.
  pose proof (get_partial_entry "u" (mk_datetime 2015 10 21 7 28 30 None) [r]) as Hg.
  simpl in Hg. destruct Hg as (_ & _ & Hg).
  destruct (Hg "v" eq_refl) as (R & HR & Hblob & _).
  exists R. split; [exact HR|]. split; [exact Hblob|].
  injection HR as <-. reflexivity.
Defined.

Lemma find_replaced u (t : table) r :
  uri r = u ->
  List.find (Cache.where_uri u)
    (List.filter (fun r => negb (Cache.where_uri u r)) t ++ [r])%list = Some r.
Proof.
  intros Hu. induction t as [|x t IH]; simpl.
  - by rewrite (proj2 (where_uri_spec u r) Hu).
  - destruct (Cache.where_uri u x) eqn:E; simpl; [exact IH|]. by rewrite E.
Qed.

Lemma serializable_dumps `{Pickle payload} (v : payload) :
  serializable v -> exists b, dumps v = Ok b /\ loads b = Ok v.
Proof.
  unfold serializable. destruct (dumps v) as [b|e]; [|done]. intros Hl. by exists b.
Qed.

Lemma adapt_dumps `{Pickle payload} (v : payload) b :
  dumps v = Ok b <-> Cache.adapt v = Ok b.
Proof.
  unfold Cache.adapt, Cache.__conform__.
  destruct (dumps v) as [b'|e]; [done|]. by destruct e.
Qed.

(** What [set] writes when the headers are accepted. *)
Lemma set_stores `{Pickle payload} u (v : payload) b hs now (t : table) directives d :
  dumps v = Ok b ->
  _parse_cache_control (h_cache_control hs) = Ok directives ->
  directives !! "no-store" = None ->
  httpdate_to_datetime (h_date hs) = Ok (Some d) ->
  forallb Sqlite.int64
    (omap id [h_age hs; Cache.directive_int (directives !! "max-age");
              Cache.directive_int (directives !! "immutable")]) = true ->
  exists ex lm,
    httpdate_to_datetime (h_expires hs) = Ok ex
    /\ httpdate_to_datetime (h_last_modified hs) = Ok lm
    /\ Cache.set u v (Some hs) now t
       = Ok (List.filter (fun r => negb (Cache.where_uri u r)) t
             ++ [mk_row u b d (h_age hs) (h_etag hs) ex lm
                        (Cache.directive_int (directives !! "max-age"))
                        (Cache.directive_int (directives !! "immutable"))])%list.
Proof.
  intros Hb Hparse Hns Hdate Hfit.
  destruct (httpdate_to_datetime_total (h_expires hs)) as [ex Hex].
  destruct (httpdate_to_datetime_total (h_last_modified hs)) as [lm Hlm].
  exists ex, lm. split; [done|]. split; [done|].
  unfold Cache.set. simpl. rewrite Hparse. simpl.
  rewrite decide_False by (rewrite Hns; by intros [x Hx]).
  rewrite Hdate, Hex, Hlm. simpl. rewrite (proj1 (adapt_dumps v b) Hb). simpl.
  unfold Cache.replace_into. by rewrite Hfit.
Qed.

(** C3, as stated, fails: headers without no-store but also without a
    date are refused by NOT NULL on [http_date]; nothing is stored and
    [get] returns [None], not the payload. *)
Lemma set_without_date_not_stored :
  let hs := mk_headers None (Some "max-age=60") None None None None in
  let now := mk_datetime 2015 10 21 7 28 0 None in
  serializable "v"
  /\ ~ In "no-store" (directive_names "max-age=60")
  /\ Cache.get "u" now (Cache.store_after (Cache.set "u" "v" (Some hs) now []) [])
     = Ok None.
Proof.
  split; [reflexivity|]. split; [|reflexivity].
  vm_compute. intros [Hn|[]]. discriminate.
Qed.

Lemma default_cache_control :
  _parse_cache_control (Some ("immutable, max-age=" +:+ Sqlite.decimal DEFAULT_MAX_AGE))
  = Ok (<["max-age" := DInt DEFAULT_MAX_AGE]> {[ "immutable" := DTrue ]}).
Proof. vm_compute. reflexivity. Qed.

(** What [set] writes when the headers are left out. *)
Lemma set_default_stores `{Pickle payload} u (v : payload) b now (t : table) :
  dumps v = Ok b ->
  valid_datetime now = true ->
  Cache.set u v None now t
  = Ok (List.filter (fun r => negb (Cache.where_uri u r)) t
        ++ [mk_row u b
                   (mk_datetime (year now) (month now) (day now)
                                (hour now) (minute now) (second now) None)
                   None None None None (Some DEFAULT_MAX_AGE) (Some 1)])%list.
Proof.
  intros Hb Hv.
  destruct (httpdate_roundtrip
              (mk_datetime (year now) (month now) (day now)
                           (hour now) (minute now) (second now) (Some GMT)))
    as (s & Hs & Hback); [done|done|].
  cbn [year month day hour minute second] in Hback.
  unfold Cache.set, Cache.default_headers. rewrite Hs.
  cbn [mbind result_bind h_cache_control h_date h_expires h_last_modified h_age h_etag].
  rewrite default_cache_control. cbn [mbind result_bind].
  rewrite decide_False by (by intros [x Hx]).
  rewrite Hback. cbn [mbind result_bind]. by rewrite (proj1 (adapt_dumps v b) Hb).
Qed.

(** Without a date in HTTP-date form in the headers, [set] leaves the
    table as it was. *)
Lemma set_without_date `{Pickle payload} u (v : payload) hs now (t : table) :
  httpdate_to_datetime (h_date hs) = Ok None ->
  Cache.store_after (Cache.set u v (Some hs) now t) t = t.
Proof.
  intros Hdate. unfold Cache.set. cbn [mbind result_bind].
  destruct (_parse_cache_control (h_cache_control hs)) as [m|]; [|done].
  cbn [mbind result_bind]. case_decide; [done|]. rewrite Hdate.
  destruct (httpdate_to_datetime (h_expires hs)) as [ex|]; [|done].
  destruct (httpdate_to_datetime (h_last_modified hs)) as [lm|]; [|done].
  cbn [mbind result_bind]. destruct (Cache.adapt v) as [b|e]; [|by destruct e].
  cbn [mbind result_bind]. unfold Cache.replace_into. by destruct (negb _).
Qed.

(** C3, amended: for every serializable payload [v] and every uri,
    [set] with headers whose directives parse and have no no-store,
    whose date is in HTTP-date form, and whose integers fit 64 bits,
    stores a row, and [get] on that uri then yields [v] decoded, at
    every later time; so does [set] with the headers left out; and
    without a date in HTTP-date form nothing is stored. *)
Theorem set_get_roundtrip `{Pickle payload} (u : string) (v : payload)
    (now now' : datetime) (t : table) :
  serializable v ->
  (forall (hs : headers) (directives : gmap string dval) (d : datetime),
     _parse_cache_control (h_cache_control hs) = Ok directives ->
     directives !! "no-store" = None ->
     httpdate_to_datetime (h_date hs) = Ok (Some d) ->
     forallb Sqlite.int64
       (omap id [h_age hs; Cache.directive_int (directives !! "max-age");
                 Cache.directive_int (directives !! "immutable")]) = true ->
     exists t' (R : Row payload),
       Cache.set u v (Some hs) now t = Ok t'
       /\ Cache.get u now' t' = Ok (Some R)
       /\ R !! "blob" = Some (PObj v))
  /\ (valid_datetime now = true ->
      exists t' (R : Row payload),
        Cache.set u v None now t = Ok t'
        /\ Cache.get u now' t' = Ok (Some R)
        /\ R !! "blob" = Some (PObj v))
  /\ (forall hs : headers,
        httpdate_to_datetime (h_date hs) = Ok None ->
        Cache.store_after (Cache.set u v (Some hs) now t) t = t).
Proof.
  intros Hser. destruct (serializable_dumps v Hser) as (b & Hb & Hl).
  split; [|split].
  - intros hs directives d Hparse Hns Hdate Hfit.
    destruct (set_stores u v b hs now t directives d Hb Hparse Hns Hdate Hfit)
      as (ex & lm & _ & _ & Hset).
    eexists. eexists. split; [exact Hset|]. split.
    + apply get_found with (v := v); [by apply find_replaced|exact Hl].
    + reflexivity.
  - intros Hnow. eexists. eexists.
    split; [by apply set_default_stores|]. split.
    + apply get_found with (v := v); [by apply find_replaced|exact Hl].
    + reflexivity.
  - intros hs Hdate. by apply set_without_date.
Qed.

Lemma set_get_roundtrip_witness :
  let hs := mk_headers (Some "Wed, 21 Oct 2015 07:28:00 GMT")
                       (Some "max-age=60, immutable") (Some 0) None None None in
  let now := mk_datetime 2015 10 21 7 28 0 None in
  exists t' (R : Row string),
    Cache.set "u" "v" (Some hs) now [] = Ok t'
    /\ Cache.get "u" now t' = Ok (Some R)
    /\ R !! "blob" = Some (PObj "v").
Proof.
  intros hs now.
  destruct (set_get_roundtrip "u" "v" now now []) as [Hwith _]; [reflexivity|].
  apply (Hwith hs (<["immutable" := DTrue]> {[ "max-age" := DInt 60 ]})
               (mk_datetime 2015 10 21 7 28 0 None)).
  - reflexivity.
  - reflexivity.
  - vm_compute. reflexivity.
  - reflexivity.
Defined.

Lemma optional_date_valid s o :
  httpdate_to_datetime s = Ok o -> forall d, o = Some d -> naive_valid d.
Proof. intros Hs d ->. by eapply httpdate_to_datetime_naive_valid. Qed.

(** [set] keeps the timestamps of the table valid. *)
Lemma set_valid_rows `{Pickle payload} u (v : payload) hs now (t t' : table) :
  Forall valid_row t -> Cache.set u v hs now t = Ok t' -> Forall valid_row t'.
Proof.
  intros Ht. unfold Cache.set.
  destruct (match hs with None => Cache.default_headers now | Some h => Ok h end)
    as [h|]; simpl; [|done].
  destruct (_parse_cache_control (h_cache_control h)) as [m|]; simpl; [|done].
  case_decide; [by intros [= <-]|].
  destruct (httpdate_to_datetime (h_date h)) as [d|] eqn:Ed; simpl; [|done].
  destruct (httpdate_to_datetime (h_expires h)) as [ex|] eqn:Eex; simpl; [|done].
  destruct (httpdate_to_datetime (h_last_modified h)) as [lm|] eqn:Elm; simpl; [|done].
  destruct (Cache.adapt v) as [b|e]; [|by destruct e].
  simpl. unfold Cache.replace_into. destruct (negb _); [done|].
  destruct d as [d|]; [|done]. simpl. intros [= <-].
  apply Forall_app. split.
  - apply Forall_forall. intros r Hr. apply list_elem_of_In, filter_In in Hr as [Hr _].
    rewrite Forall_forall in Ht. by apply Ht, list_elem_of_In.
  - constructor; [|constructor]. split; [|split]; simpl.
    + by eapply httpdate_to_datetime_naive_valid.
    + by eapply optional_date_valid.
    + by eapply optional_date_valid.
Qed.

(** So does [touch]. *)
Lemma touch_valid_rows u hs (t t' : table) :
  Forall valid_row t -> Cache.touch u hs t = Ok t' -> Forall valid_row t'.
Proof.
  intros Ht. unfold Cache.touch.
  destruct (_parse_cache_control (h_cache_control hs)) as [m|]; simpl; [|done].
  destruct (httpdate_to_datetime (h_date hs)) as [d|] eqn:Ed; simpl; [|done].
  destruct (httpdate_to_datetime (h_expires hs)) as [ex|] eqn:Eex; simpl; [|done].
  destruct (httpdate_to_datetime (h_last_modified hs)) as [lm|] eqn:Elm; simpl; [|done].
  unfold Cache.update_meta. destruct (negb _); [done|].
  destruct d as [d|].
  - simpl. intros [= <-]. apply Forall_map. eapply Forall_impl; [exact Ht|].
    intros r Hr. simpl. destruct (Cache.where_uri u r); [|done].
    split; [|split]; simpl.
    + by eapply httpdate_to_datetime_naive_valid.
    + by eapply optional_date_valid.
    + by eapply optional_date_valid.
  - destruct (existsb _ _); [done|]. by intros [= <-].
Qed.

(** [set(uri, v)] with the headers left out, on 3 November 2026 at
    noon: the row has the date of now, a [max_age] of one year and no
    [age]. *)
Example set_default_headers :
  Cache.set "u" "v" None (mk_datetime 2026 11 3 12 0 0 None) []
  = Ok [mk_row "u" (list_byte_of_string "v") (mk_datetime 2026 11 3 12 0 0 None)
               None None None None (Some DEFAULT_MAX_AGE) (Some 1)].
Proof. vm_compute. reflexivity. Qed.

(** ** Freshness *)

(** C1 at its own example: after
    [set("u", v, {date: T0, cache-control: "max-age=60"})] with no age
    header, [get("u")] reports [fresh] as [None] thirty seconds later,
    and as [None] again after sixty-one seconds: [max(age, max_age)]
    is NULL when [age] is NULL. *)
Theorem fresh_without_age_is_none `{Pickle payload} (v : payload) :
  serializable v ->
  let hs := mk_headers (Some "Wed, 21 Oct 2015 07:28:00 GMT")
                       (Some "max-age=60") None None None None in
  exists t (R30 R61 : Row payload),
    Cache.set "u" v (Some hs) (mk_datetime 2015 10 21 7 28 0 None) [] = Ok t
    /\ Cache.get "u" (mk_datetime 2015 10 21 7 28 30 None) t = Ok (Some R30)
    /\ R30 !! "blob" = Some (PObj v) /\ R30 !! "fresh" = Some PNone
    /\ Cache.get "u" (mk_datetime 2015 10 21 7 29 1 None) t = Ok (Some R61)
    /\ R61 !! "fresh" = Some PNone.
Proof.
  intros Hser hs. destruct (serializable_dumps v Hser) as (b & Hb & Hl).
  destruct (set_stores "u" v b hs (mk_datetime 2015 10 21 7 28 0 None) []
              {[ "max-age" := DInt 60 ]} (mk_datetime 2015 10 21 7 28 0 None))
    as (ex & lm & Hex & Hlm & Hset);
    [exact Hb|reflexivity|reflexivity|vm_compute; reflexivity|reflexivity|].
  simpl in Hex, Hlm. injection Hex as <-. injection Hlm as <-.
  simpl in Hset. eexists. eexists. eexists.
  split; [exact Hset|].
  split; [apply get_found with (v := v); [reflexivity|exact Hl]|].
  split; [reflexivity|].
  split; [rewrite !lookup_insert_ne by done; rewrite lookup_insert_eq;
          by rewrite (fresh_null_without_age _ _ 60)|].
  split; [apply get_found with (v := v); [reflexivity|exact Hl]|].
  rewrite !lookup_insert_ne by done. rewrite lookup_insert_eq.
  by rewrite (fresh_null_without_age _ _ 60).
Qed.

Lemma fresh_without_age_is_none_witness :
  exists t (R30 R61 : Row string),
    Cache.set "u" "v"
      (Some (mk_headers (Some "Wed, 21 Oct 2015 07:28:00 GMT")
                        (Some "max-age=60") None None None None))
      (mk_datetime 2015 10 21 7 28 0 None) [] = Ok t
    /\ Cache.get "u" (mk_datetime 2015 10 21 7 28 30 None) t = Ok (Some R30)
    /\ R30 !! "blob" = Some (PObj "v") /\ R30 !! "fresh" = Some PNone
    /\ Cache.get "u" (mk_datetime 2015 10 21 7 29 1 None) t = Ok (Some R61)
    /\ R61 !! "fresh" = Some PNone.
Proof. apply (fresh_without_age_is_none "v"). reflexivity. Defined.

(** ** Conditional headers *)

(** C8: for an entry with its [etag] and [last_modified],
    [conditional_headers] returns a mapping with If-None-Match, mapped
    to the etag, exactly when the etag is present, with
    If-Modified-Since, mapped to [datetime_to_httpdate] of
    [last_modified], exactly when that is present, and with no other
    key; with neither the mapping is empty, and an entry with the etag
    "v1" in quotes and no [last_modified] gives exactly that one
    If-None-Match. *)
Theorem conditional_headers_spec {payload : Type} :
  (forall (R : Row payload) (e : option string) (lm : option datetime),
     R !! "etag" = Some (Cache.py_str e) ->
     R !! "last_modified" = Some (Cache.py_datetime lm) ->
     exists m : Row payload,
       conditional_headers R = Ok m
       /\ m !! "If-None-Match" = PStr <$> e
       /\ match lm with
          | None => m !! "If-Modified-Since" = None
          | Some d => exists s, datetime_to_httpdate (Some d) = Ok (Some s)
                                /\ m !! "If-Modified-Since" = Some (PStr s)
          end
       /\ (forall k, k <> "If-None-Match" -> k <> "If-Modified-Since" -> m !! k = None)
       /\ (e = None -> lm = None -> m = ∅))
  /\ conditional_headers
       (<["etag" := PStr (quoted "v1")]> {[ "last_modified" := PNone ]} : Row payload)
     = Ok {[ "If-None-Match" := PStr (quoted "v1") ]}.
Proof.
  split; [|reflexivity].
  intros R e lm He Hlm. unfold conditional_headers, subscript.
  rewrite He, Hlm. simpl.
  destruct e as [e|], lm as [d|]; simpl; eexists; (split; [reflexivity|]).
  - split; [by rewrite lookup_insert_ne, lookup_insert_eq|].
    split; [eexists; split; [reflexivity|by rewrite lookup_insert_eq]|].
    split; [|done].
    intros k H1 H2. by rewrite !lookup_insert_ne, lookup_empty.
  - split; [by rewrite lookup_insert_eq|].
    split; [by rewrite lookup_insert_ne, lookup_empty|].
    split; [|done].
    intros k H1 H2. by rewrite lookup_insert_ne, lookup_empty.
  - split; [by rewrite lookup_insert_ne, lookup_empty|].
    split; [eexists; split; [reflexivity|by rewrite lookup_insert_eq]|].
    split; [|done].
    intros k H1 H2. by rewrite lookup_insert_ne, lookup_empty.
  - split; [by rewrite lookup_empty|]. split; [by rewrite lookup_empty|].
    split; [|done]. intros k _ _. by rewrite lookup_empty.
Qed.

Lemma conditional_headers_spec_witness :
  exists m : Row string,
    conditional_headers
      (<["etag" := PStr "W/1"]>
         {[ "last_modified" := PDatetime (mk_datetime 2015 10 21 7 28 0 (Some GMT)) ]})
    = Ok m
    /\ m !! "If-None-Match" = Some (PStr "W/1")
    /\ m !! "If-Modified-Since" = Some (PStr "Wed, 21 Oct 2015 07:28:00 GMT").
Proof.
  destruct (proj1 (@conditional_headers_spec string)
              (<["etag" := PStr "W/1"]>
                 {[ "last_modified" := PDatetime (mk_datetime 2015 10 21 7 28 0 (Some GMT)) ]})
              (Some "W/1") (Some (mk_datetime 2015 10 21 7 28 0 (Some GMT))))
    as (m & Hm & He & (s & Hs & Hlm) & _); [reflexivity|reflexivity|].
  exists m. split; [exact Hm|]. split; [exact He|].
  rewrite Hlm. vm_compute in Hs. injection Hs as <-. reflexivity.
Defined.

(** ** The text that [datetime_to_httpdate] prints *)

(** C7 at a datetime that [httpdate_to_datetime] itself returns: the
    date of "Wed, 21 Oct 2015 07:28:00 GMT" is a naive datetime, for
    which [%Z] prints nothing; [datetime_to_httpdate] gives the text
    without the zone, which [httpdate_to_datetime] refuses.  The zone
    is printed for a datetime built with [GMT()]. *)
Theorem httpdate_of_naive_datetime :
  httpdate_to_datetime (Some "Wed, 21 Oct 2015 07:28:00 GMT")
  = Ok (Some (mk_datetime 2015 10 21 7 28 0 None))
  /\ datetime_to_httpdate (Some (mk_datetime 2015 10 21 7 28 0 None))
     = Ok (Some "Wed, 21 Oct 2015 07:28:00 ")
  /\ httpdate_to_datetime (Some "Wed, 21 Oct 2015 07:28:00 ") = Ok None
  /\ datetime_to_httpdate (Some (mk_datetime 2015 10 21 7 28 0 (Some GMT)))
     = Ok (Some "Wed, 21 Oct 2015 07:28:00 GMT").
Proof. repeat split; vm_compute; reflexivity. Qed.

(** For every naive datetime the printed text ends where the zone
    should be. *)
Lemma httpdate_of_naive_ends_in_space (d : datetime) :
  dt_tzinfo d = None ->
  exists s, datetime_to_httpdate (Some d) = Ok (Some (s +:+ " ")).
Proof.
  intros Hn. unfold datetime_to_httpdate, strftime, HTTPDATE_FORMAT. simpl.
  change (strftime_directive d "Z")
    with (match dt_tzinfo d with Some tz => tzname tz | None => EmptyString end).
  rewrite Hn.
  exists (strftime_directive d "a" +:+ ", " +:+ strftime_directive d "d" +:+ " "
          +:+ strftime_directive d "b" +:+ " " +:+ strftime_directive d "Y" +:+ " "
          +:+ strftime_directive d "H" +:+ ":" +:+ strftime_directive d "M" +:+ ":"
          +:+ strftime_directive d "S").
  do 2 f_equal. symmetry.
  repeat (rewrite append_assoc || rewrite append_cons).
  reflexivity.
Qed.

(** ** [domain] *)

Lemma like_percent p x : Cache.like (String "%" p) x = like_any p x.
Proof. reflexivity. Qed.









#[global] Instance by_http_date_total : Total Cache.by_http_date.
Proof. intros r1 r2. unfold Cache.by_http_date. apply String.le_total. Qed.

Lemma insert_by_http_date_Permutation r (l : list row) :
  Cache.insert_by_http_date r l ≡ₚ r :: l.
Proof.
  induction l as [|x l IH]; cbn [Cache.insert_by_http_date]; [reflexivity|].
  destruct (decide (Cache.by_http_date r x)); [reflexivity|].
  rewrite IH. apply Permutation_swap.
Qed.

Lemma order_by_http_date_Permutation (l : list row) :
  Cache.order_by_http_date l ≡ₚ l.
Proof.
  induction l as [|r l IH]; [reflexivity|].
  change (Cache.order_by_http_date (r :: l))
    with (Cache.insert_by_http_date r (Cache.order_by_http_date l)).
  rewrite insert_by_http_date_Permutation. by apply Permutation_cons.
Qed.

Lemma Sorted_insert_by_http_date r (l : list row) :
  Sorted Cache.by_http_date l -> Sorted Cache.by_http_date (Cache.insert_by_http_date r l).
Proof.
  induction 1 as [|x l Hl IH Hx]; cbn [Cache.insert_by_http_date].
  - constructor; constructor.
  - destruct (decide (Cache.by_http_date r x)) as [Hrx|Hrx].
    + constructor; [by constructor|by constructor].
    + constructor; [exact IH|].
      assert (Hxr : Cache.by_http_date x r).
      { destruct (by_http_date_total x r) as [Hle|Hle]; [exact Hle|contradiction]. }
      destruct Hx as [|y l Hxy]; cbn [Cache.insert_by_http_date].
      * by constructor.
      * destruct (decide (Cache.by_http_date r y)); by constructor.
Qed.

Lemma Sorted_order_by_http_date (l : list row) :
  Sorted Cache.by_http_date (Cache.order_by_http_date l).
Proof.
  induction l as [|r l IH]; [constructor|].
  change (Cache.order_by_http_date (r :: l))
    with (Cache.insert_by_http_date r (Cache.order_by_http_date l)).
  by apply Sorted_insert_by_http_date.
Qed.




(** ** The directive parser: keys, errors, repeated directives *)

Lemma comprehension_keys_inv tokens acc m k :
  comprehension tokens acc = Ok m ->
  is_Some (m !! k) ->
  In k (List.map directive_name tokens) \/ is_Some (acc !! k).
Proof.
  revert acc. induction tokens as [|t ts IH]; intros acc; simpl.
  - intros [= <-] Hk. by right.
  - destruct (directive_item t) as [kv|e] eqn:E; simpl; [|done].
    intros Hm Hk. apply directive_item_name in E.
    destruct (IH _ Hm Hk) as [Hin|Hacc]; [by left; right|].
    destruct (decide (kv.1 = k)) as [Heq|Hne].
    + left. left. congruence.
    + right. by rewrite lookup_insert_ne in Hacc.
Qed.

(** The keys of the parsed mapping are the names of the tokens. *)
Theorem parse_cache_control_keys (header : string) (m : gmap string dval) (k : string) :
  _parse_cache_control (Some header) = Ok m ->
  is_Some (m !! k) <-> In k (directive_names header).
Proof.
  intros Hm. split.
  - intros Hk. destruct (comprehension_keys_inv _ _ _ _ Hm Hk) as [Hin|Hacc]; [done|].
    rewrite lookup_empty in Hacc. by destruct Hacc.
  - intros Hin. eapply comprehension_keys; [exact Hm|]. by left.
Qed.

Lemma parse_cache_control_keys_witness :
  is_Some ((<["max-age" := DInt 100]> {[ "immutable" := DTrue ]} : gmap string dval) !! "immutable")
  <-> In "immutable" (directive_names "max-age=100, immutable").
Proof. apply (parse_cache_control_keys "max-age=100, immutable"). reflexivity. Defined.

Lemma comprehension_returns tokens acc :
  returns (comprehension tokens acc)
  <-> Forall (fun token => returns (directive_item token)) tokens.
Proof.
  revert acc. induction tokens as [|t ts IH]; intros acc; simpl.
  - split; [constructor|]. intros _. by eexists.
  - destruct (directive_item t) as [kv|e] eqn:E; simpl.
    + rewrite IH. split.
      * intros Hts. constructor; [by eexists|done].
      * intros Hall. by inversion Hall.
    + split; [by intros [m Hm]|]. intros Hall.
      inversion Hall as [|? ? Hr _]; subst. destruct Hr as [x Hx]. congruence.
Qed.

Lemma directive_item_value_error token : value_error_only (directive_item token).
Proof.
  unfold directive_item. destruct (Str.split "=" token) as [|n [|v rest]]; simpl;
    try apply value_error_only_Ok.
  apply value_error_only_bind; [apply int_value_error|]. intros n'. apply value_error_only_Ok.
Qed.

Lemma comprehension_value_error tokens acc : value_error_only (comprehension tokens acc).
Proof.
  revert acc. induction tokens as [|t ts IH]; intros acc; simpl.
  - apply value_error_only_Ok.
  - apply value_error_only_bind; [apply directive_item_value_error|]. intros kv. apply IH.
Qed.

(** The parser fails exactly when the part after the first ['='] of some
    token is no integer, and then with [ValueError]; an absent header
    never fails. *)
Theorem parse_cache_control_errors (header : option string) :
  (returns (_parse_cache_control header)
   <-> forall h, header = Some h ->
       Forall (fun token =>
                 match Str.split "=" token with
                 | _ :: v :: _ => returns (Str.int v)
                 | _ => True
                 end) (Str.split "," h))
  /\ (forall e, _parse_cache_control header = Raise e -> e = ValueError).
Proof.
  split.
  - destruct header as [h|]; simpl.
    + rewrite comprehension_returns. split.
      * intros Hall h' [= <-]. eapply Forall_impl; [exact Hall|].
        intros token. unfold directive_item.
        destruct (Str.split "=" token) as [|n [|v rest]]; [done..|].
        intros [kv Hkv]. destruct (Str.int v) as [x|]; [by eexists|done].
      * intros Hall. eapply Forall_impl; [exact (Hall h eq_refl)|].
        intros token. unfold directive_item.
        destruct (Str.split "=" token) as [|n [|v rest]]; [by eexists..|].
        intros [x ->]. by eexists.
    + split; [done|]. intros _. by eexists.
  - destruct header as [h|]; simpl; [apply comprehension_value_error|done].
Qed.

(** The separators U+001C to U+001F are blanks for [strip] and not for
    [int]: after an ['='] they make the directive fail. *)
Example parse_cache_control_separator :
  _parse_cache_control (Some (String "a" (String "=" (String (ascii_of_nat 28) "5"))))
  = Raise ValueError
  /\ _parse_cache_control (Some (String (ascii_of_nat 28) "a= 5 "))
     = Ok {[ "a" := DInt 5 ]}.
Proof. split; vm_compute; reflexivity. Qed.

Lemma comprehension_app l1 l2 acc :
  comprehension (l1 ++ l2) acc = (comprehension l1 acc ≫= comprehension l2).
Proof.
  revert acc. induction l1 as [|t l1 IH]; intros acc; simpl; [done|].
  destruct (directive_item t) as [kv|e]; simpl; [apply IH|done].
Qed.

Lemma comprehension_other_keys tokens acc m k :
  comprehension tokens acc = Ok m ->
  Forall (fun token => directive_name token <> k) tokens ->
  m !! k = acc !! k.
Proof.
  revert acc. induction tokens as [|t ts IH]; intros acc; simpl.
  - by intros [= <-].
  - destruct (directive_item t) as [kv|e] eqn:E; simpl; [|done].
    intros Hm Hall. inversion Hall as [|? ? Ht Hts]; subst.
    rewrite (IH _ Hm Hts). apply directive_item_name in E.
    apply lookup_insert_ne. congruence.
Qed.

(** A directive given twice has the value of its last token. *)
Theorem parse_cache_control_last_wins (header : string) (m : gmap string dval)
    (before after : list string) (token k : string) (v : dval) :
  _parse_cache_control (Some header) = Ok m ->
  Str.split "," header = (before ++ token :: after)%list ->
  directive_item token = Ok (k, v) ->
  Forall (fun token' => directive_name token' <> k) after ->
  m !! k = Some v.
Proof.
  intros Hm Hsplit Hitem Hafter. simpl in Hm.
  rewrite Hsplit, comprehension_app in Hm.
  destruct (comprehension before ∅) as [acc|] eqn:Hacc; simpl in Hm; [|done].
  rewrite Hitem in Hm. simpl in Hm.
  rewrite (comprehension_other_keys _ _ _ _ Hm Hafter).
  apply lookup_insert_eq.
Qed.

Lemma parse_cache_control_last_wins_witness :
  (<["max-age" := DInt 5]> {[ "x" := DTrue ]} : gmap string dval) !! "max-age"
  = Some (DInt 5).
Proof.
  apply (parse_cache_control_last_wins "max-age=1, max-age=5,x"
           (<["max-age" := DInt 5]> {[ "x" := DTrue ]})
           ["max-age=1"] ["x"] " max-age=5" "max-age" (DInt 5)).
  - vm_compute. reflexivity.
  - reflexivity.
  - reflexivity.
  - repeat constructor. discriminate.
Defined.

(** ** The table under [set], [touch], [delete] and [clear] *)

Lemma set_cases `{Pickle payload} u (v : payload) hs now (t t' : table) :
  Cache.set u v hs now t = Ok t' ->
  t' = t
  \/ exists r, uri r = u /\ dumps v = Ok (blob r)
       /\ t' = (List.filter (fun r => negb (Cache.where_uri u r)) t ++ [r])%list.
Proof.
  unfold Cache.set.
  destruct (match hs with None => Cache.default_headers now | Some h => Ok h end)
    as [h|]; simpl; [|done].
  destruct (_parse_cache_control (h_cache_control h)) as [m|]; simpl; [|done].
  case_decide; [intros [= <-]; by left|].
  destruct (httpdate_to_datetime (h_date h)) as [d|]; simpl; [|done].
  destruct (httpdate_to_datetime (h_expires h)) as [ex|]; simpl; [|done].
  destruct (httpdate_to_datetime (h_last_modified h)) as [lm|]; simpl; [|done].
  destruct (Cache.adapt v) as [b|e] eqn:Hb; [|by destruct e].
  apply adapt_dumps in Hb. simpl.
  unfold Cache.replace_into. destruct (negb _); [done|].
  destruct d as [d|]; [|done]. intros [= <-]. right.
  eexists. split; [|split]; [| |reflexivity]; [reflexivity|exact Hb].
Qed.

Lemma touch_cases u hs (t t' : table) :
  Cache.touch u hs t = Ok t' ->
  t' = t
  \/ exists d a ex lm ma,
       t' = List.map (fun r => if Cache.where_uri u r
                               then Cache.update_row d a ex lm ma r else r) t.
Proof.
  intros Ht. destruct (touch_store u hs t) as [Hs|(d & a & ex & lm & ma & Hs)];
    rewrite Ht in Hs; simpl in Hs; [by left|right]. by exists d, a, ex, lm, ma.
Qed.

Lemma map_uri_touched u d a ex lm ma (t : table) :
  List.map uri (List.map (fun r => if Cache.where_uri u r
                                   then Cache.update_row d a ex lm ma r else r) t)
  = List.map uri t.
Proof.
  rewrite List.map_map. apply map_ext. intros r. by destruct (Cache.where_uri u r).
Qed.

Lemma uri_not_in_filtered u (t : table) :
  ~ In u (List.map uri (List.filter (fun r => negb (Cache.where_uri u r)) t)).
Proof.
  intros Hin. apply in_map_iff in Hin as (r & Hr & Hin).
  apply filter_In in Hin as [_ Hn]. apply where_uri_spec in Hr. by rewrite Hr in Hn.
Qed.

Lemma NoDup_filter_uri (p : row -> bool) (t : table) :
  List.NoDup (List.map uri t) -> List.NoDup (List.map uri (List.filter p t)).
Proof.
  induction t as [|r t IH]; simpl; [done|].
  intros Hnd. apply List.NoDup_cons_iff in Hnd as [Hr Hnd].
  destruct (p r); simpl; [|by apply IH].
  apply List.NoDup_cons; [|by apply IH].
  intros Hin. apply Hr. apply in_map_iff in Hin as (x & Hx & Hin).
  apply filter_In in Hin as [Hin _]. apply in_map_iff. by exists x.
Qed.

Lemma set_uris_unique `{Pickle payload} u (v : payload) hs now (t t' : table) :
  List.NoDup (List.map uri t) -> Cache.set u v hs now t = Ok t' ->
  List.NoDup (List.map uri t').
Proof.
  intros Hnd Hset.
  destruct (set_cases u v hs now t t' Hset) as [->|(r & Hu & _ & ->)]; [done|].
  rewrite List.map_app. simpl. rewrite Hu.
  apply NoDup_ListNoDup, NoDup_app. split; [|split].
  - by apply NoDup_ListNoDup, NoDup_filter_uri.
  - intros x Hx Hx'. apply list_elem_of_In in Hx.
    apply list_elem_of_singleton in Hx'. subst x. by apply uri_not_in_filtered in Hx.
  - apply NoDup_singleton.
Qed.

Lemma touch_uris_unique u hs (t t' : table) :
  List.NoDup (List.map uri t) -> Cache.touch u hs t = Ok t' ->
  List.NoDup (List.map uri t').
Proof.
  intros Hnd Htouch.
  destruct (touch_cases u hs t t' Htouch) as [->|(d & a & ex & lm & ma & ->)]; [done|].
  by rewrite map_uri_touched.
Qed.

Lemma find_app_last (p : row -> bool) (l : list row) r :
  p r = false -> List.find p (l ++ [r])%list = List.find p l.
Proof.
  intros Hr. induction l as [|x l IH]; simpl; [by rewrite Hr|].
  by destruct (p x).
Qed.

Lemma where_uri_other u u' r : u <> u' -> Cache.where_uri u r = true -> Cache.where_uri u' r = false.
Proof.
  intros Hne Hu. apply where_uri_spec in Hu. apply not_true_is_false.
  intros Hu'. apply where_uri_spec in Hu'. congruence.
Qed.

Lemma find_filter_other u u' (t : table) :
  u <> u' ->
  List.find (Cache.where_uri u') (List.filter (fun r => negb (Cache.where_uri u r)) t)
  = List.find (Cache.where_uri u') t.
Proof.
  intros Hne. induction t as [|r t IH]; simpl; [done|].
  destruct (Cache.where_uri u r) eqn:Eu; simpl.
  - by rewrite (where_uri_other u u' r).
  - by rewrite IH.
Qed.

Lemma get_find `{Pickle payload} u now (t1 t2 : table) :
  List.find (Cache.where_uri u) t1 = List.find (Cache.where_uri u) t2 ->
  Cache.get u now t1 = Cache.get u now t2.
Proof. intros Hf. unfold Cache.get. simpl. by rewrite Hf. Qed.

(** [set] on one uri leaves what [get] answers for every other uri. *)
Theorem set_leaves_other_uris `{Pickle payload} (u u' : string) (v : payload)
    (hs : option headers) (now now' : datetime) (t : table) :
  u <> u' ->
  Cache.get u' now' (Cache.store_after (Cache.set u v hs now t) t) = Cache.get u' now' t.
Proof.
  intros Hne. apply get_find.
  destruct (Cache.set u v hs now t) as [t'|e] eqn:Hset; simpl; [|done].
  destruct (set_cases u v hs now t t' Hset) as [->|(r & Hu & _ & ->)]; [done|].
  rewrite find_app_last.
  - by apply find_filter_other.
  - apply (where_uri_other u u'); [done|]. by apply where_uri_spec.
Qed.

Lemma set_leaves_other_uris_witness :
  Cache.get "b" (mk_datetime 2015 10 21 7 28 0 None)
    (Cache.store_after
       (Cache.set "a" "v" None (mk_datetime 2015 10 21 7 28 0 None) []) [])
  = Cache.get "b" (mk_datetime 2015 10 21 7 28 0 None) [].
Proof. apply (set_leaves_other_uris "a" "b"). discriminate. Defined.

Lemma find_filter_same u (t : table) :
  List.find (Cache.where_uri u) (List.filter (fun r => negb (Cache.where_uri u r)) t) = None.
Proof.
  induction t as [|r t IH]; simpl; [done|].
  destruct (Cache.where_uri u r) eqn:Eu; simpl; [done|]. by rewrite Eu.
Qed.

Lemma filter_filter_same u (t : table) :
  List.filter (fun r => negb (Cache.where_uri u r))
    (List.filter (fun r => negb (Cache.where_uri u r)) t)
  = List.filter (fun r => negb (Cache.where_uri u r)) t.
Proof.
  induction t as [|r t IH]; simpl; [done|].
  destruct (Cache.where_uri u r) eqn:Eu; simpl; [done|]. by rewrite Eu, IH.
Qed.

(** [delete] never fails; afterwards the uri has no entry, every other
    uri has the entry it had, and a second [delete] changes nothing. *)
Theorem delete_spec `{Pickle payload} (u : string) (t : table) :
  exists t',
    Cache.delete u t = Ok t'
    /\ (forall now, Cache.get u now t' = Ok None)
    /\ (forall u' now, u <> u' -> Cache.get u' now t' = Cache.get u' now t)
    /\ Cache.delete u t' = Ok t'
    /\ (List.find (Cache.where_uri u) t = None -> t' = t).
Proof.
  eexists. split; [reflexivity|]. split; [|split; [|split]].
  - intros now. apply get_no_row, find_filter_same.
  - intros u' now Hne. by apply get_find, find_filter_other.
  - unfold Cache.delete. simpl. by rewrite filter_filter_same.
  - intros Hnone. induction t as [|r t IH]; simpl in *; [done|].
    destruct (Cache.where_uri u r); [done|]. simpl. by rewrite IH.
Qed.

Lemma find_touched u d a ex lm ma (t : table) :
  List.find (Cache.where_uri u)
    (List.map (fun r => if Cache.where_uri u r
                        then Cache.update_row d a ex lm ma r else r) t)
  = Cache.update_row d a ex lm ma <$> List.find (Cache.where_uri u) t.
Proof.
  induction t as [|r t IH]; simpl; [done|].
  destruct (Cache.where_uri u r) eqn:Eu.
  - unfold Cache.where_uri in *. simpl. by rewrite Eu.
  - by rewrite Eu.
Qed.

(** [touch] keeps what [get] returns of the payload, the etag and the
    immutable flag. *)
Theorem touch_keeps_payload `{Pickle payload} (u : string) (hs : headers)
    (now : datetime) (t : table) (r : row) (v : payload) :
  List.find (Cache.where_uri u) t = Some r ->
  loads (blob r) = Ok v ->
  exists R : Row payload,
    Cache.get u now (Cache.store_after (Cache.touch u hs t) t) = Ok (Some R)
    /\ R !! "blob" = Some (PObj v)
    /\ R !! "etag" = Some (Cache.py_str (etag r))
    /\ R !! "immutable" = Some (Cache.py_int (immutable r)).
Proof.
  intros Hfind Hloads.
  destruct (touch_store u hs t) as [->|(d & a & ex & lm & ma & ->)].
  - eexists. split; [by apply get_found|]. by rewrite !lookup_insert.
  - eexists. split.
    + apply get_found with (r := Cache.update_row d a ex lm ma r).
      * by rewrite find_touched, Hfind.
      * exact Hloads.
    + by rewrite !lookup_insert.
Qed.

Lemma touch_keeps_payload_witness :
  exists R : Row string,
    Cache.get "u" (mk_datetime 2015 10 21 7 28 30 None)
      (Cache.store_after
         (Cache.touch "u"
            (mk_headers (Some "Thu, 22 Oct 2015 07:28:00 GMT") None None None None None)
            [mk_row "u" (list_byte_of_string "v") (mk_datetime 2015 10 21 7 28 0 None)
                    None (Some "e") None None None (Some 1)])
         [mk_row "u" (list_byte_of_string "v") (mk_datetime 2015 10 21 7 28 0 None)
                 None (Some "e") None None None (Some 1)])
    = Ok (Some R)
    /\ R !! "blob" = Some (PObj "v")
    /\ R !! "etag" = Some (Cache.py_str (Some "e"))
    /\ R !! "immutable" = Some (Cache.py_int (Some 1)).
Proof.
  apply (touch_keeps_payload "u" _ _ _
           (mk_row "u" (list_byte_of_string "v") (mk_datetime 2015 10 21 7 28 0 None)
                   None (Some "e") None None None (Some 1)) "v");
    reflexivity.
Defined.

Lemma reachable_uris_unique `{Pickle payload} (t : table) :
  reachable t -> List.NoDup (List.map uri t).
Proof.
  induction 1 as [|u v hs now t _ IH|u hs t _ IH|u t _ IH|t _ IH].
  - constructor.
  - destruct (Cache.set u v hs now t) as [t'|e] eqn:Hset; simpl; [|done].
    by eapply set_uris_unique.
  - destruct (Cache.touch u hs t) as [t'|e] eqn:Ht; simpl; [|done].
    by eapply touch_uris_unique.
  - by apply NoDup_filter_uri.
  - constructor.
Qed.

Lemma reachable_valid_rows `{Pickle payload} (t : table) :
  reachable t -> Forall valid_row t.
Proof.
  induction 1 as [|u v hs now t _ IH|u hs t _ IH|u t _ IH|t _ IH].
  - constructor.
  - destruct (Cache.set u v hs now t) as [t'|e] eqn:Hset; simpl; [|done].
    by eapply set_valid_rows.
  - destruct (Cache.touch u hs t) as [t'|e] eqn:Ht; simpl; [|done].
    by eapply touch_valid_rows.
  - simpl. rewrite Forall_forall in IH |- *. intros r Hr. apply IH.
    apply list_elem_of_In in Hr. apply filter_In in Hr as [Hr _].
    by apply list_elem_of_In.
  - constructor.
Qed.

Lemma find_unique (t : table) r :
  List.NoDup (List.map uri t) -> In r t ->
  List.find (Cache.where_uri (uri r)) t = Some r.
Proof.
  induction t as [|x t IH]; simpl; [done|].
  intros Hnd Hin. apply List.NoDup_cons_iff in Hnd as [Hx Hnd].
  destruct (Cache.where_uri (uri r) x) eqn:Ex.
  - destruct Hin as [->|Hin]; [done|].
    apply where_uri_spec in Ex. exfalso. apply Hx. rewrite Ex.
    by apply in_map.
  - destruct Hin as [->|Hin]; [|by apply IH].
    assert (Cache.where_uri (uri r) r = true) by (by apply where_uri_spec).
    congruence.
Qed.

(** Every table that the operations build from the empty one has at
    most one row for a uri, timestamps that are dates of the calendar
    without a zone, and each of its rows is the one that the queries
    find for its uri. *)
Theorem reachable_invariant `{Pickle payload} (t : table) :
  reachable t ->
  List.NoDup (List.map uri t)
  /\ Forall valid_row t
  /\ forall r, In r t -> List.find (Cache.where_uri (uri r)) t = Some r.
Proof.
  intros Hreach. pose proof (reachable_uris_unique t Hreach) as Hnd.
  split; [done|]. split; [by apply reachable_valid_rows|].
  intros r Hin. by apply find_unique.
Qed.

Lemma reachable_invariant_witness :
  let now := mk_datetime 2015 10 21 7 28 0 None in
  let hs := mk_headers (Some "Wed, 21 Oct 2015 07:28:00 GMT") (Some "max-age=60")
                       (Some 0) (Some "e1") None (Some "Tue, 20 Oct 2015 07:28:00 GMT") in
  let hs' := mk_headers (Some "Thu, 22 Oct 2015 07:28:00 GMT") None None None
                        (Some "Fri, 23 Oct 2015 07:28:00 GMT") None in
  let t1 := Cache.store_after (Cache.set "u" "v" (Some hs) now []) [] in
  let t2 := Cache.store_after (Cache.set "w" "x" None now t1) t1 in
  let t3 := Cache.store_after (Cache.set "u" "y" None now t2) t2 in
  let t4 := Cache.store_after (Cache.touch "w" hs' t3) t3 in
  (List.NoDup (List.map uri t4)
   /\ Forall valid_row t4
   /\ forall r, In r t4 -> List.find (Cache.where_uri (uri r)) t4 = Some r)
  /\ List.map uri t4 = ["w"; "u"]
  /\ List.map expires t4 = [Some (mk_datetime 2015 10 23 7 28 0 None); None].
Proof.
  intros now hs hs' t1 t2 t3 t4. split; [|split; vm_compute; reflexivity].
  apply (@reachable_invariant string text_pickle).
  apply reachable_touch, reachable_set, reachable_set, reachable_set, reachable_new.
Defined.

Lemma find_In_uri u (t : table) r :
  List.find (Cache.where_uri u) t = Some r -> In r t /\ uri r = u.
Proof.
  intros Hf. apply find_some in Hf as [Hin Hu]. split; [done|]. by apply where_uri_spec.
Qed.

Lemma reachable_valid_row `{Pickle payload} u (t : table) r :
  reachable t -> List.find (Cache.where_uri u) t = Some r -> valid_row r.
Proof.
  intros Hreach Hf. apply reachable_valid_rows in Hreach as Hv.
  apply find_In_uri in Hf as [Hin _]. rewrite Forall_forall in Hv.
  by apply Hv, list_elem_of_In.
Qed.

(** The fresh flag that [get] returns, on every table that the
    operations build: 1 or 0 as the seconds since [http_date] are within
    the lifetime of the row or not, [None] when the row has no
    lifetime. *)
Theorem get_fresh_flag `{Pickle payload} (u : string) (now : datetime) (t : table)
    (r : row) (v : payload) :
  reachable t -> naive_valid now ->
  List.find (Cache.where_uri u) t = Some r ->
  loads (blob r) = Ok v ->
  exists R : Row payload,
    Cache.get u now t = Ok (Some R)
    /\ R !! "fresh"
       = Some (match lifetime r now with
               | Some l => PInt (if seconds_of now - seconds_of (http_date r) <=? l
                                 then 1 else 0)
               | None => PNone
               end).
Proof.
  intros Hreach Hnow Hfind Hloads. eexists. split; [by apply get_found|].
  do 4 (rewrite lookup_insert_ne by done). rewrite lookup_insert_eq.
  rewrite fresh_formula by (by eauto using reachable_valid_row).
  by destruct (lifetime r now).
Qed.

Lemma get_fresh_flag_witness :
  exists R : Row string,
    Cache.get "u" (mk_datetime 2015 10 21 7 28 30 None)
      (Cache.store_after
         (Cache.set "u" "v"
            (Some (mk_headers (Some "Wed, 21 Oct 2015 07:28:00 GMT") (Some "max-age=60")
                              (Some 0) None None None))
            (mk_datetime 2015 10 21 7 28 0 None) []) [])
    = Ok (Some R)
    /\ R !! "fresh" = Some (PInt 1).
Proof.
  apply (get_fresh_flag "u" (mk_datetime 2015 10 21 7 28 30 None) _
           (mk_row "u" (list_byte_of_string "v") (mk_datetime 2015 10 21 7 28 0 None)
                   (Some 0) None None None (Some 60) None) "v").
  - apply reachable_set, reachable_new.
  - split; reflexivity.
  - vm_compute. reflexivity.
  - reflexivity.
Defined.

(** Under a max-age that is not zero or an expires date, an entry that
    is stale stays stale as time goes on. *)
Theorem stale_stays_stale (r : row) (now1 now2 : datetime) :
  valid_row r -> naive_valid now1 -> naive_valid now2 ->
  seconds_of now1 <= seconds_of now2 ->
  (exists m, max_age r = Some m /\ m <> 0) \/ is_Some (expires r) ->
  Cache.fresh r now1 = Sqlite.Integer 0 ->
  Cache.fresh r now2 = Sqlite.Integer 0.
Proof.
  intros Hr H1 H2 Hle Hbranch.
  rewrite !fresh_formula by done.
  assert (lifetime r now1 = lifetime r now2) as ->.
  { unfold lifetime. destruct Hbranch as [(m & -> & Hm)|[e He] ].
    - by destruct (Z.eqb_spec m 0).
    - rewrite He. destruct (max_age r) as [m|]; [|done]. by destruct (m =? 0). }
  destruct (lifetime r now2) as [l|]; [|done].
  destruct (Z.leb_spec (seconds_of now1 - seconds_of (http_date r)) l); [done|].
  intros _. destruct (Z.leb_spec (seconds_of now2 - seconds_of (http_date r)) l); [lia|done].
Qed.

Lemma stale_stays_stale_witness :
  Cache.fresh (mk_row "u" [] (mk_datetime 2015 10 21 7 28 0 None)
                      (Some 0) None None None (Some 60) None)
              (mk_datetime 2015 10 21 7 30 0 None) = Sqlite.Integer 0.
Proof.
  apply (stale_stays_stale _ (mk_datetime 2015 10 21 7 29 1 None)).
  - split; [split; reflexivity|]. split; discriminate.
  - split; reflexivity.
  - split; reflexivity.
  - vm_compute. discriminate.
  - left. exists 60. split; [reflexivity|lia].
  - vm_compute. reflexivity.
Defined.




(** [conditional_headers] accepts every row that [get] returns: the
    etag becomes If-None-Match, and last_modified an If-Modified-Since
    text that ends in a space, where the zone would be. *)
Theorem get_conditional_headers `{Pickle payload} (u : string) (now : datetime)
    (t : table) (R : Row payload) :
  reachable t ->
  Cache.get u now t = Ok (Some R) ->
  exists (r : row) (m : Row payload),
    List.find (Cache.where_uri u) t = Some r
    /\ conditional_headers R = Ok m
    /\ m !! "If-None-Match" = PStr <$> etag r
    /\ match last_modified r with
       | None => m !! "If-Modified-Since" = None
       | Some d => exists s, datetime_to_httpdate (Some d) = Ok (Some (s +:+ " "))
                             /\ m !! "If-Modified-Since" = Some (PStr (s +:+ " "))
       end.
Proof.
  intros Hreach Hget.
  destruct (List.find (Cache.where_uri u) t) as [r|] eqn:Hfind;
    [|by rewrite get_no_row in Hget].
  pose proof (reachable_valid_row _ _ _ Hreach Hfind) as (_ & _ & Hlm).
  destruct (loads (blob r)) as [v|e] eqn:Hloads.
  - rewrite (get_found _ _ _ _ _ Hfind Hloads) in Hget. injection Hget as <-.
    exists r. unfold conditional_headers, subscript.
    rewrite !lookup_insert.
    repeat first [rewrite decide_True by reflexivity | rewrite decide_False by discriminate].
    destruct (last_modified r) as [d|] eqn:Hd.
    + destruct (Hlm d eq_refl) as [_ Hz].
      destruct (httpdate_of_naive_ends_in_space d Hz) as [s Hs].
      cbn -[datetime_to_httpdate]. destruct (etag r) as [e|];
        cbn -[datetime_to_httpdate]; rewrite Hs; cbn -[String.append]; eexists; (split; [done|]); (split; [reflexivity|]);
        (split; [by rewrite ?lookup_insert_ne, ?lookup_insert_eq by done|]);
        exists s; by rewrite lookup_insert_eq.
    + simpl. destruct (etag r) as [e|]; simpl; eexists; (split; [done|]);
        (split; [reflexivity|]); by rewrite ?lookup_insert_eq.
  - exfalso. unfold Cache.get in Hget. simpl in Hget. rewrite Hfind in Hget.
    unfold Cache.get_row, Cache.deserialise in Hget. by rewrite Hloads in Hget.
Qed.

Lemma get_conditional_headers_witness :
  let hs := mk_headers (Some "Wed, 21 Oct 2015 07:28:00 GMT") (Some "max-age=60") None
                       (Some "e1") None (Some "Tue, 20 Oct 2015 07:28:00 GMT") in
  let t := Cache.store_after
             (Cache.set "u" "v" (Some hs) (mk_datetime 2015 10 21 7 28 0 None) []) [] in
  exists (R m : Row string),
    Cache.get "u" (mk_datetime 2015 10 21 7 28 30 None) t = Ok (Some R)
    /\ conditional_headers R = Ok m
    /\ m !! "If-None-Match" = Some (PStr "e1")
    /\ m !! "If-Modified-Since" = Some (PStr "Tue, 20 Oct 2015 07:28:00 ").
Proof.
  intros hs t.
  set (r0 := mk_row "u" (list_byte_of_string "v") (mk_datetime 2015 10 21 7 28 0 None)
                    None (Some "e1") None (Some (mk_datetime 2015 10 20 7 28 0 None))
                    (Some 60) None).
  assert (Ht : t = [r0]) by (vm_compute; reflexivity).
  assert (Hget : Cache.get "u" (mk_datetime 2015 10 21 7 28 30 None) t
                 = Cache.get_row (payload := string)
                     (mk_datetime 2015 10 21 7 28 30 None) r0 ≫= fun R => Ok (Some R))
    by (rewrite Ht; reflexivity).
  destruct (Cache.get_row (payload := string) (mk_datetime 2015 10 21 7 28 30 None) r0)
    as [R|] eqn:HR; [|discriminate HR].
  cbn [mbind result_bind] in Hget.
  destruct (@get_conditional_headers string text_pickle "u"
              (mk_datetime 2015 10 21 7 28 30 None) t R)
    as (r & m & Hfind & Hm & Hetag & Hlm);
    [apply reachable_set, reachable_new|exact Hget|].
  rewrite Ht in Hfind. injection Hfind as Hr. subst r.
  cbn [last_modified etag r0] in Hetag, Hlm.
  destruct Hlm as (s & Hs & Hms).
  assert (Htext : datetime_to_httpdate (Some (mk_datetime 2015 10 20 7 28 0 None))
                  = Ok (Some "Tue, 20 Oct 2015 07:28:00 ")) by reflexivity.
  rewrite Htext in Hs. injection Hs as Hs.
  exists R, m. split; [exact Hget|]. split; [exact Hm|]. split; [exact Hetag|].
  rewrite Hms. by rewrite <- Hs.
Defined.

(** ** The exceptions of [set] and [touch], and the empty domain *)

Lemma parse_cache_control_value_error header e :
  _parse_cache_control header = Raise e -> e = ValueError.
Proof.
  destruct header as [h|]; [|done]. apply comprehension_value_error.
Qed.

(** The exceptions of [set] with headers, and when each is raised:
    [ValueError] for a directive value that is no integer; then, unless
    the directives have no-store, the exception of pickling the
    content, where [TypeError] comes out as [ProgrammingError] and the
    two exceptions that [_execute] handles as [AttributeError]; then
    [OverflowError] for an integer outside 64 bits; then, for a date
    that is absent or no HTTP-date, the [AttributeError] of the handler
    of [_execute]. *)
Theorem set_errors `{Pickle payload} (u : string) (v : payload) (hs : headers)
    (now : datetime) (t : table) (e : exn) :
  Cache.set u v (Some hs) now t = Raise e
  <-> (e = ValueError /\ _parse_cache_control (h_cache_control hs) = Raise ValueError)
      \/ exists directives,
           _parse_cache_control (h_cache_control hs) = Ok directives
           /\ directives !! "no-store" = None
           /\ ((exists e',
                  dumps v = Raise e'
                  /\ e = match e' with
                         | TypeError => ProgrammingError
                         | IntegrityError | OperationalError => AttributeError
                         | _ => e'
                         end)
               \/ exists b,
                    dumps v = Ok b
                    /\ ((e = OverflowError
                         /\ forallb Sqlite.int64
                              (omap id [h_age hs;
                                        Cache.directive_int (directives !! "max-age");
                                        Cache.directive_int (directives !! "immutable")])
                            = false)
                        \/ (e = AttributeError
                            /\ forallb Sqlite.int64
                                 (omap id [h_age hs;
                                           Cache.directive_int (directives !! "max-age");
                                           Cache.directive_int (directives !! "immutable")])
                               = true
                            /\ httpdate_to_datetime (h_date hs) = Ok None))).
Proof.
  unfold Cache.set. cbn [mbind result_bind].
  destruct (_parse_cache_control (h_cache_control hs)) as [m|e'] eqn:Hm.
  - cbn [mbind result_bind].
    destruct (httpdate_to_datetime_total (h_date hs)) as [d Hd].
    destruct (httpdate_to_datetime_total (h_expires hs)) as [ex ->].
    destruct (httpdate_to_datetime_total (h_last_modified hs)) as [lm ->].
    rewrite Hd. cbn [mbind result_bind].
    unfold Cache.adapt, Cache.__conform__, Cache.replace_into.
    split.
    + case_decide as Hns; [done|]. intros He. right. exists m. split; [done|]. split.
      { destruct (m !! "no-store") eqn:E; [|done]. exfalso. apply Hns. by eexists. }
      destruct (dumps v) as [b|e'] eqn:Hb.
      * right. exists b. split; [done|]. cbn [mbind result_bind] in He.
        destruct (forallb _ _) eqn:Hfit; cbn [negb] in He.
        -- right. destruct d; [done|]. by injection He as <-.
        -- left. by injection He as <-.
      * left. exists e'. split; [done|]. by destruct e'; injection He as <-.
    + intros [ [_ [=] ]|(m' & [= <-] & Hns & Hcase)].
      rewrite decide_False by (rewrite Hns; by intros [? [=] ]).
      destruct Hcase as [(e' & -> & ->)|(b & -> & Hcase)].
      * by destruct e'.
      * cbn [mbind result_bind].
        destruct Hcase as [ [-> ->]|(-> & -> & [= ->]) ]; done.
  - cbn [mbind result_bind].
    pose proof (parse_cache_control_value_error _ _ Hm) as ->. split.
    + intros [= <-]. by left.
    + intros [ [-> _]|(m' & [=] & _)]. done.
Qed.

Lemma set_errors_witness :
  Cache.set "u" "v" (Some (mk_headers None (Some "max-age=60") None None None None))
    (mk_datetime 2015 10 21 7 28 0 None) [] = Raise AttributeError
  /\ @Cache.set unit unpicklable "u" tt
       (Some (mk_headers (Some "Wed, 21 Oct 2015 07:28:00 GMT") (Some "max-age=60")
                         (Some (2 ^ 70)) None None None))
       (mk_datetime 2015 10 21 7 28 0 None) [] = Raise ProgrammingError.
Proof.
  split.
  - apply (proj2 (set_errors "u" "v" (mk_headers None (Some "max-age=60") None None None None)
                    (mk_datetime 2015 10 21 7 28 0 None) [] AttributeError)).
    right. exists {[ "max-age" := DInt 60 ]}. split; [reflexivity|]. split; [reflexivity|].
    right. exists (list_byte_of_string "v"). split; [reflexivity|].
    right. split; [reflexivity|]. split; reflexivity.
  - apply (proj2 (@set_errors unit unpicklable "u" tt
                    (mk_headers (Some "Wed, 21 Oct 2015 07:28:00 GMT") (Some "max-age=60")
                                (Some (2 ^ 70)) None None None)
                    (mk_datetime 2015 10 21 7 28 0 None) [] ProgrammingError)).
    right. exists {[ "max-age" := DInt 60 ]}. split; [reflexivity|]. split; [reflexivity|].
    left. exists TypeError. split; reflexivity.
Defined.

(** The exceptions of [touch]: as for [set], but a date that is absent
    or no HTTP-date fails only when the uri has a row. *)
Theorem touch_errors (u : string) (hs : headers) (t : table) (e : exn) :
  Cache.touch u hs t = Raise e
  <-> (e = ValueError /\ _parse_cache_control (h_cache_control hs) = Raise ValueError)
      \/ exists directives,
           _parse_cache_control (h_cache_control hs) = Ok directives
           /\ ((e = OverflowError
                /\ forallb Sqlite.int64
                     (omap id [h_age hs; Cache.directive_int (directives !! "max-age")])
                   = false)
               \/ (e = AttributeError
                   /\ forallb Sqlite.int64
                        (omap id [h_age hs; Cache.directive_int (directives !! "max-age")])
                      = true
                   /\ httpdate_to_datetime (h_date hs) = Ok None
                   /\ is_Some (List.find (Cache.where_uri u) t))).
Proof.
  unfold Cache.touch. cbn [mbind result_bind].
  destruct (_parse_cache_control (h_cache_control hs)) as [m|e'] eqn:Hm.
  - cbn [mbind result_bind].
    destruct (httpdate_to_datetime_total (h_date hs)) as [d Hd].
    destruct (httpdate_to_datetime_total (h_expires hs)) as [ex ->].
    destruct (httpdate_to_datetime_total (h_last_modified hs)) as [lm ->].
    rewrite Hd. cbn [mbind result_bind]. unfold Cache._execute, Cache.update_meta.
    split.
    + intros He. right. exists m. split; [done|].
      destruct (forallb _ _) eqn:Hfit; cbn [negb] in He.
      * right. destruct d; [done|].
        destruct (existsb (Cache.where_uri u) t) eqn:Hex; [|done].
        injection He as <-. split; [done|]. split; [done|]. split; [done|].
        destruct (List.find (Cache.where_uri u) t) eqn:Hf; [by eexists|].
        apply find_none_existsb in Hf. congruence.
      * left. by injection He as <-.
    + intros [ [_ [=] ]|(m' & [= <-] & Hcase)].
      destruct Hcase as [ [-> ->]|(-> & -> & [= ->] & [r Hr]) ]; [done|].
      cbn [negb]. destruct (existsb (Cache.where_uri u) t) eqn:Hex; [done|].
      exfalso. apply find_some in Hr as [Hin Hu].
      assert (existsb (Cache.where_uri u) t = true); [|congruence].
      apply existsb_exists. by exists r.
  - cbn [mbind result_bind].
    pose proof (parse_cache_control_value_error _ _ Hm) as ->. split.
    + intros [= <-]. by left.
    + intros [ [-> _]|(m' & [=] & _)]. done.
Qed.

Lemma touch_errors_witness :
  (ValueError = ValueError
   /\ _parse_cache_control (h_cache_control
        (mk_headers None (Some "max-age=soon") None None None None)) = Raise ValueError)
  \/ exists directives,
       _parse_cache_control (h_cache_control
         (mk_headers None (Some "max-age=soon") None None None None)) = Ok directives
       /\ ((ValueError = OverflowError
            /\ forallb Sqlite.int64
                 (omap id [None; Cache.directive_int (directives !! "max-age")]) = false)
           \/ (ValueError = AttributeError
               /\ forallb Sqlite.int64
                    (omap id [None; Cache.directive_int (directives !! "max-age")]) = true
               /\ httpdate_to_datetime None = Ok None
               /\ is_Some (List.find (Cache.where_uri "u") ([] : table)))).
Proof.
  apply (proj1 (touch_errors "u" (mk_headers None (Some "max-age=soon") None None None None)
                  [] ValueError)).
  vm_compute. reflexivity.
Defined.

Lemma like_any_true p x : Cache.like p EmptyString = true -> like_any p x = true.
Proof.
  intros Hp. induction x as [|c x IH]; simpl.
  - by rewrite Hp.
  - rewrite IH. apply orb_true_r.
Qed.

Lemma matching_empty (t : table) : matching "" t = t.
Proof.
  assert (Hall : forall x, Cache.like ("%" +:+ "" +:+ "%") x = true).
  { intros x. change ("%" +:+ "" +:+ "%") with "%%".
    rewrite like_percent. by apply like_any_true. }
  unfold matching. induction t as [|r t IH]; [done|].
  cbn [List.filter]. by rewrite Hall, IH.
Qed.

Lemma by_http_date_same s r x :
  dated s r = true -> dated s x = true -> Cache.by_http_date r x.
Proof.
  unfold dated, Cache.by_http_date. intros Hr Hx.
  apply String.eqb_eq in Hr, Hx. rewrite Hr, Hx. reflexivity.
Qed.

Lemma filter_insert_by_http_date s r (l : list row) :
  List.filter (dated s) (Cache.insert_by_http_date r l)
  = List.filter (dated s) (r :: l).
Proof.
  induction l as [|x l IH]; cbn [Cache.insert_by_http_date]; [reflexivity|].
  destruct (decide (Cache.by_http_date r x)) as [Hrx|Hrx]; [reflexivity|].
  cbn [List.filter] in IH |- *. rewrite IH.
  destruct (dated s r) eqn:Hr, (dated s x) eqn:Hx; try reflexivity.
  exfalso. apply Hrx. by apply (by_http_date_same s).
Qed.

Lemma filter_order_by_http_date s (l : list row) :
  List.filter (dated s) (Cache.order_by_http_date l) = List.filter (dated s) l.
Proof.
  induction l as [|r l IH]; [reflexivity|].
  change (Cache.order_by_http_date (r :: l))
    with (Cache.insert_by_http_date r (Cache.order_by_http_date l)).
  rewrite filter_insert_by_http_date. cbn [List.filter]. by rewrite IH.
Qed.

(** The empty domain matches every uri: without a limit, [domain("")]
    selects all the rows, in the order of their dates, and the rows of
    one date in the order in which the table has them. *)
Theorem domain_empty_text (limit : Z) (t : table) :
  limit < 0 ->
  Cache.domain_rows "" limit t ≡ₚ t
  /\ Sorted Cache.by_http_date (Cache.domain_rows "" limit t)
  /\ forall s : string,
       List.filter (dated s) (Cache.domain_rows "" limit t) = List.filter (dated s) t.
Proof.
  intros Hl. unfold Cache.domain_rows, Cache.limit_rows.
  destruct (Z.ltb_spec limit 0); [|lia].
  fold (matching "" t). rewrite matching_empty. split; [|split].
  - apply order_by_http_date_Permutation.
  - apply Sorted_order_by_http_date.
  - intros s. apply filter_order_by_http_date.
Qed.

Lemma domain_empty_text_witness :
  let a := mk_row "a" [] (mk_datetime 2015 10 22 7 28 0 None)
                  None None None None None None in
  let b := mk_row "b" [] (mk_datetime 2015 10 21 7 28 0 None)
                  None None None None None None in
  let c := mk_row "c" [] (mk_datetime 2015 10 22 7 28 0 None)
                  None None None None None None in
  let d := mk_row "d" [] (mk_datetime 2015 10 21 7 28 0 None)
                  None None None None None None in
  (Cache.domain_rows "" (-1) [a; b; c; d] ≡ₚ [a; b; c; d]
   /\ Sorted Cache.by_http_date (Cache.domain_rows "" (-1) [a; b; c; d])
   /\ forall s : string,
        List.filter (dated s) (Cache.domain_rows "" (-1) [a; b; c; d])
        = List.filter (dated s) [a; b; c; d])
  /\ Cache.domain_rows "" (-1) [a; b; c; d] = [b; d; a; c].
Proof.
  split; [|reflexivity].
  apply (domain_empty_text (-1)). lia.
Defined.

(** ** The date codec: weekday names and normal form *)

Section HttpdateWeekday.
Import Re.

Lemma strptime_httpdate_text i d :
  (i < 7)%nat -> valid_datetime d = true ->
  Strptime._strptime (httpdate_text i d) HTTPDATE_FORMAT
  = Ok (year d, month d, day d, hour d, minute d, second d).
Proof.
  intros Hi Hv. pose proof (valid_datetime_bounds d Hv) as Hb.
  assert (Hdate : Calendar.valid_date (year d) (month d) (day d) = true).
  { unfold valid_datetime in Hv. by apply andb_true_iff in Hv as [-> _]. }
  destruct d as [y m dd h mi s tz].
  cbn [year month day hour minute second dt_tzinfo] in *. clear Hv.
  destruct Hb as (Hy & Hm & Hd & Hh & Hmi & Hs).
  unfold Strptime._strptime.
  destruct (Strptime.pattern HTTPDATE_FORMAT false) as [r|e] eqn:Hr;
    [|by rewrite pattern_httpdate in Hr].
  cbn [mbind result_bind].
  change (httpdate_text i (mk_datetime y m dd h mi s tz))
    with (nth i Calendar.day_abbr EmptyString
      +:+ String "," (String " " (pad2 dd +:+ String " "
      (nth (Z.to_nat (m - 1)) Calendar.month_abbr EmptyString +:+ String " "
      (pad4 y +:+ String " " (pad2 h +:+ String ":" (pad2 mi +:+ String ":"
      (pad2 s +:+ String " " ("GMT" +:+ EmptyString))))))))).
  destruct (four_digits y) as (y1 & y2 & y3 & y4 & ? & ? & ? & ? & Ey & ->); [lia|].
  destruct (two_digits dd) as (a1 & a2 & ? & ? & Edd & ->); [lia|].
  destruct (two_digits h) as (h1 & h2 & ? & ? & Eh & ->); [lia|].
  destruct (two_digits mi) as (m1 & m2 & ? & ? & Emi & ->); [lia|].
  destruct (two_digits s) as (s1 & s2 & ? & ? & Es & ->); [lia|].
  rewrite !append_cons, !append_nil_l.
  rewrite (matches_httpdate i (Z.to_nat (m - 1))
             a1 a2 y1 y2 y3 y4 h1 h2 m1 m2 s1 s2) by (done || lia).
  match goal with
  | |- context [Strptime.field ?caps _] => set (caps0 := caps)
  end.
  change (Strptime.field caps0 "Y")
    with (Str.int (String (digit_char y1) (String (digit_char y2)
                    (String (digit_char y3) (String (digit_char y4) EmptyString))))).
  change (Strptime.field caps0 "d")
    with (Str.int (String (digit_char a1) (String (digit_char a2) EmptyString))).
  change (Strptime.field caps0 "H")
    with (Str.int (String (digit_char h1) (String (digit_char h2) EmptyString))).
  change (Strptime.field caps0 "M")
    with (Str.int (String (digit_char m1) (String (digit_char m2) EmptyString))).
  change (Strptime.field caps0 "S")
    with (Str.int (String (digit_char s1) (String (digit_char s2) EmptyString))).
  change (group caps0 "b")
    with (Some (nth (Z.to_nat (m - 1)) Calendar.month_abbr EmptyString)).
  rewrite int_four_digits, !int_two_digits by done.
  cbn [mbind result_bind].
  rewrite index_month by lia.
  replace (Z.of_nat (Z.to_nat (m - 1)) + 1) with m by lia.
  rewrite <- Ey, <- Edd. rewrite Hdate.
  by rewrite Eh, Emi, Es.
Qed.

End HttpdateWeekday.

(** [httpdate_to_datetime] does not check the name of the weekday
    against the date: with any of the seven names, the text of a date
    is read as that date.  From the year 1000 on, the text that
    [datetime_to_httpdate] prints for the date in GMT is the one with
    the weekday of the date. *)
Theorem httpdate_weekday_unchecked (i : nat) (d : datetime) :
  (i < 7)%nat -> valid_datetime d = true ->
  httpdate_to_datetime (Some (httpdate_text i d)) = Ok (Some (naive d))
  /\ (1000 <= year d ->
      datetime_to_httpdate (Some (in_gmt d))
      = Ok (Some (httpdate_text
                    (Z.to_nat (Calendar.weekday (year d) (month d) (day d))) d))).
Proof.
  intros Hi Hv. split; [|reflexivity].
  unfold httpdate_to_datetime, datetime_strptime.
  rewrite strptime_httpdate_text by done. cbn [mbind result_bind].
  unfold datetime_new, naive. unfold valid_datetime in Hv. by rewrite Hv.
Qed.

Lemma httpdate_weekday_unchecked_witness :
  httpdate_to_datetime (Some "Mon, 21 Oct 2015 07:28:00 GMT")
  = Ok (Some (mk_datetime 2015 10 21 7 28 0 None))
  /\ datetime_to_httpdate (Some (mk_datetime 2015 10 21 7 28 0 (Some GMT)))
     = Ok (Some "Wed, 21 Oct 2015 07:28:00 GMT").
Proof.
  destruct (httpdate_weekday_unchecked 0 (mk_datetime 2015 10 21 7 28 0 None))
    as [Hread Hprint]; [lia|reflexivity|].
  split; [exact Hread|]. apply Hprint. cbn [year]. lia.
Defined.

(** [httpdate_to_datetime] never raises: a text that is no HTTP-date
    gives [None], and a datetime it returns is a date of the calendar
    with a time of the day and no zone.  From the year 1000 on,
    printing that datetime in GMT gives a text that is read as the same
    datetime. *)
Theorem httpdate_to_datetime_normalises (input_date : option string) :
  exists o,
    httpdate_to_datetime input_date = Ok o
    /\ (input_date = None -> o = None)
    /\ forall d, o = Some d ->
         valid_datetime d = true /\ dt_tzinfo d = None
         /\ (1000 <= year d ->
             exists s, datetime_to_httpdate (Some (in_gmt d)) = Ok (Some s)
                       /\ httpdate_to_datetime (Some s) = Ok (Some d)).
Proof.
  destruct (httpdate_to_datetime_total input_date) as [o Ho]. exists o.
  split; [done|]. split.
  - intros ->. by injection Ho as <-.
  - intros d ->. destruct (httpdate_to_datetime_naive_valid _ _ Ho) as [Hv Hz].
    split; [done|]. split; [done|]. intros _.
    destruct (httpdate_roundtrip (in_gmt d)) as (s & Hs & Hback); [done..|].
    exists s. split; [done|]. rewrite Hback. destruct d. simpl in *. by subst.
Qed.

(** ** [Store] *)

Section StoreProperties.
Context {other : Type} `{Pickle (object other)}.

Lemma retrieve_find (key : string) (now : datetime) (t : table) :
  Store.retrieve key now t
  = match List.find (Cache.where_uri key) t with
    | Some r => PObj <$> loads (blob r)
    | None => Ok (PObj (PySet ∅))
    end.
Proof.
  unfold Store.retrieve, Cache.get. simpl.
  destruct (List.find (Cache.where_uri key) t) as [r|]; [|done].
  unfold Cache.get_row, Cache.deserialise. destruct (loads (blob r)); [|done].
  simpl. unfold subscript. by rewrite lookup_insert_eq.
Qed.

Lemma find_last u (t : table) r :
  uri r = u ->
  List.find (Cache.where_uri u)
    (List.filter (fun r => negb (Cache.where_uri u r)) t ++ [r])%list = Some r.
Proof.
  intros Hu. induction t as [|x t IH]; simpl.
  - apply where_uri_spec in Hu. by rewrite Hu.
  - destruct (Cache.where_uri u x) eqn:Ex; simpl; [done|]. by rewrite Ex.
Qed.

Lemma save_retrieve (key : string) (s : gset string) (now : datetime) (t : table) :
  valid_datetime now = true -> serializable (PySet s) ->
  exists t',
    Store._save key (PObj (PySet s)) now t = Ok t'
    /\ (forall now', Store.retrieve key now' t' = Ok (PObj (PySet s)))
    /\ (forall key' now', key <> key' ->
          Store.retrieve key' now' t' = Store.retrieve key' now' t).
Proof.
  intros Hnow Hser. destruct (serializable_dumps _ Hser) as (b & Hb & Hl).
  unfold Store._save. rewrite (set_default_stores _ _ b) by done.
  eexists. split; [reflexivity|]. split.
  - intros now'. rewrite retrieve_find, find_last by done. simpl.
    by rewrite Hl.
  - intros key' now' Hne. rewrite !retrieve_find.
    rewrite find_app_last.
    + by rewrite find_filter_other.
    + apply (where_uri_other key key'); [done|]. by apply where_uri_spec.
Qed.

(** [append] adds the item to the set of the key and leaves the sets of
    the other keys. *)
Theorem store_append (key item : string) (now : datetime) (t : table)
    (s : gset string) :
  valid_datetime now = true ->
  Store.retrieve key now t = Ok (PObj (PySet s)) ->
  serializable (PySet ({[item]} ∪ s) : object other) ->
  exists t',
    Store.append key item now t = Ok t'
    /\ (forall now', Store.retrieve key now' t' = Ok (PObj (PySet ({[item]} ∪ s))))
    /\ (forall key' now', key <> key' ->
          Store.retrieve key' now' t' = Store.retrieve key' now' t).
Proof.
  intros Hnow Hs Hser. unfold Store.append. rewrite Hs. simpl.
  by apply save_retrieve.
Qed.

(** [remove] takes an item of the set out of it, and raises [KeyError]
    for an item that is not in the set. *)
Theorem store_remove (key item : string) (now : datetime) (t : table)
    (s : gset string) :
  valid_datetime now = true ->
  Store.retrieve key now t = Ok (PObj (PySet s)) ->
  (item ∈ s ->
   serializable (PySet (s ∖ {[item]}) : object other) ->
   exists t',
     Store.remove key item now t = Removed t'
     /\ (forall now', Store.retrieve key now' t' = Ok (PObj (PySet (s ∖ {[item]}))))
     /\ (forall key' now', key <> key' ->
           Store.retrieve key' now' t' = Store.retrieve key' now' t))
  /\ (item ∉ s -> Store.remove key item now t = KeyError item).
Proof.
  intros Hnow Hs. unfold Store.remove. rewrite Hs. split.
  - intros Hin Hser. rewrite decide_True by done.
    destruct (save_retrieve key (s ∖ {[item]}) now t Hnow Hser) as (t' & -> & Hkey & Hother).
    by exists t'.
  - intros Hnin. by rewrite decide_False.
Qed.

(** [clear] never fails; afterwards the key has the empty set, and the
    other keys the sets they had. *)
Theorem store_clear (key : string) (t : table) :
  exists t',
    Store.clear key t = Ok t'
    /\ (forall now, Store.retrieve key now t' = Ok (PObj (PySet ∅)))
    /\ (forall key' now, key <> key' ->
          Store.retrieve key' now t' = Store.retrieve key' now t).
Proof.
  eexists. split; [reflexivity|]. split.
  - intros now. by rewrite retrieve_find, find_filter_same.
  - intros key' now Hne. by rewrite !retrieve_find, find_filter_other.
Qed.

End StoreProperties.

Lemma store_append_witness :
  exists t',
    @Store.append string set_pickle "k" "a" (mk_datetime 2015 10 21 7 28 0 None) [] = Ok t'
    /\ (forall now',
          @Store.retrieve string set_pickle "k" now' t' = Ok (PObj (PySet ({["a"]} ∪ ∅))))
    /\ (forall key' now', "k" <> key' ->
          @Store.retrieve string set_pickle key' now' t'
          = @Store.retrieve string set_pickle key' now' []).
Proof.
  apply (@store_append string set_pickle "k" "a" (mk_datetime 2015 10 21 7 28 0 None) [] ∅).
  - reflexivity.
  - reflexivity.
  - vm_compute. reflexivity.
Defined.

Lemma store_remove_witness :
  let now := mk_datetime 2015 10 21 7 28 0 None in
  let t := Cache.store_after (@Store.append string set_pickle "k" "a" now []) [] in
  @Store.remove string set_pickle "k" "a" now [] = KeyError "a"
  /\ @Store.remove string set_pickle "k" "b" now t = KeyError "b"
  /\ exists t',
       @Store.remove string set_pickle "k" "a" now t = Removed t'
       /\ forall now',
            @Store.retrieve string set_pickle "k" now' t'
            = Ok (PObj (PySet (({["a"]} ∪ ∅) ∖ {["a"]}))).
Proof.
  intros now t. split; [|split].
  - apply (@store_remove string set_pickle "k" "a" now [] ∅);
      [reflexivity|reflexivity|set_solver].
  - apply (@store_remove string set_pickle "k" "b" now t ({["a"]} ∪ ∅));
      [reflexivity|vm_compute; reflexivity|].
    intros [Hb|Hb]%elem_of_union.
    + apply elem_of_singleton in Hb. discriminate Hb.
    + by apply not_elem_of_empty in Hb.
  - destruct (@store_remove string set_pickle "k" "a" now t ({["a"]} ∪ ∅))
      as [Hin _]; [reflexivity|vm_compute; reflexivity|].
    destruct Hin as (t' & Hrm & Hret & _); [set_solver|vm_compute; reflexivity|].
    by exists t'.
Defined.

(** ** [_row_factory] *)

Lemma row_factory_from_spec {V : Type} (row : list V) (description : list string) :
  forall idx acc,
    (idx + length description <= length row)%nat ->
    exists m,
      _row_factory_from idx description row acc = Ok m
      /\ (forall k, is_Some (m !! k) <-> In k description \/ is_Some (acc !! k))
      /\ (forall k, ~ In k description -> m !! k = acc !! k)
      /\ (forall i k, description !! i = Some k ->
            (forall j, (i < j)%nat -> description !! j <> Some k) ->
            m !! k = row !! (idx + i)%nat).
Proof.
  induction description as [|col description IH]; intros idx acc Hlen.
  - exists acc. split; [done|]. split; [|by split]. intros k. simpl. tauto.
  - simpl in Hlen |- *.
    destruct (row !! idx) as [v|] eqn:Hv;
      [|apply lookup_ge_None in Hv; lia].
    destruct (IH (S idx) (<[col := v]> acc)) as (m & Hm & Hkeys & Hout & Hin); [lia|].
    exists m. split; [done|]. split; [|split].
    + intros k. rewrite Hkeys. destruct (decide (col = k)) as [->|Hne].
      * rewrite lookup_insert_eq. split; [by left; left|by right].
      * rewrite lookup_insert_ne by done. tauto.
    + intros k Hk. rewrite Hout by tauto. apply lookup_insert_ne. tauto.
    + intros [|i] k Hi Hlast; simpl in Hi.
      * injection Hi as ->. rewrite Hout, lookup_insert_eq, Nat.add_0_r; [done|].
        intros Hk. apply list_elem_of_In, list_elem_of_lookup in Hk as [j Hj].
        by apply (Hlast (S j)); [lia|].
      * rewrite (Hin i k Hi).
        -- f_equal. lia.
        -- intros j Hj. apply (Hlast (S j)). lia.
Qed.

Lemma row_factory_from_short {V : Type} (row : list V) (description : list string) :
  forall idx acc,
    (idx <= length row < idx + length description)%nat ->
    _row_factory_from idx description row acc = Raise IndexError.
Proof.
  induction description as [|col description IH]; intros idx acc Hlen; simpl in *; [lia|].
  destruct (row !! idx) as [v|] eqn:Hv; [|done].
  apply IH. apply lookup_lt_Some in Hv. lia.
Qed.

(** [_row_factory] maps every column name to the value at the index of
    the last column of that name, and has no other key; a row shorter
    than the description ends in [IndexError]. *)
Theorem row_factory_spec {V : Type} (description : list string) (row : list V) :
  ((length description <= length row)%nat ->
   exists m,
     _row_factory description row = Ok m
     /\ (forall k, is_Some (m !! k) <-> In k description)
     /\ (forall i k, description !! i = Some k ->
           (forall j, (i < j)%nat -> description !! j <> Some k) ->
           m !! k = row !! i))
  /\ ((length row < length description)%nat ->
      _row_factory description row = Raise IndexError).
Proof.
  split.
  - intros Hlen.
    destruct (row_factory_from_spec row description 0 ∅) as (m & Hm & Hkeys & _ & Hin);
      [done|].
    exists m. split; [done|]. split; [|done].
    intros k. rewrite Hkeys, lookup_empty. split; [|by left].
    intros [?|[? [=] ] ]; done.
  - intros Hlen. apply row_factory_from_short. lia.
Qed.
